(** * Portfolio: persistent store, auth gate, collection seeder, query engine

    A shallow embedding of the state-handling core of the portfolio
    application:

    - [src/hooks/useLocalStorage.js]  (the [useLocalStorage] hook),
    - [src/context/AuthContext.jsx]   ([login], [createAccount], [logout]),
    - [src/sections/Blog.jsx]         ([getPosts], [savePosts], and the
                                       [filtered] memo with its [getTime]).

    JavaScript values are modelled by the inductive type [value]; the
    browser services the code calls ([JSON.parse], [JSON.stringify],
    [Date.parse], [crypto.randomUUID]) are the fields of the class
    [Platform], over which every definition and theorem is generic.
    [localStorage] is a finite map from strings to strings. *)

From Stdlib Require Import ZArith String Ascii List Sorted Permutation Lia.
From stdpp Require Import base option list gmap strings pretty sorting.

Local Open Scope Z_scope.
Local Open Scope string_scope.
Local Open Scope list_scope.

(** ** JavaScript values *)

(** Numbers are the integers: every number the modelled code computes with
    is a count of milliseconds since the epoch ([Date.now()],
    [Date.parse(..)], a stored [createdAt]).  [NaN] never is a [value]; the
    one operation that can produce it, [Date.parse], returns an [option]. *)
#[warnings="-register-all"]
Inductive value : Type :=
| VUndefined
| VNull
| VBool (b : bool)
| VNum (n : Z)
| VStr (s : string)
| VArr (items : list value)
| VObj (props : list (string * value)).

(** An object is its list of own properties, in insertion order. *)
Abbreviation object := (list (string * value)).

Inductive exn : Type := SyntaxError | TypeError.

(** What evaluating an expression gives: a result or a thrown exception. *)
Inductive outcome (A : Type) : Type :=
| Returns (a : A)
| Throws (e : exn).
Arguments Returns {A} a.
Arguments Throws {A} e.

#[global] Instance outcome_ret : MRet outcome := @Returns.
#[global] Instance outcome_bind : MBind outcome := λ A B f m,
  match m with
  | Returns a => f a
  | Throws e => Throws e
  end.

(** [ToBoolean]. *)
Definition truthy (v : value) : bool :=
  match v with
  | VUndefined | VNull => false
  | VBool b => b
  | VNum n => negb (n =? 0)%Z
  | VStr s => negb (String.eqb s "")
  | VArr _ | VObj _ => true
  end.

(** [a || b] and [a ?? b] on already evaluated operands. *)
Definition js_or (a b : value) : value := if truthy a then a else b.

Definition is_nullish (v : value) : bool :=
  match v with
  | VUndefined | VNull => true
  | _ => false
  end.

Definition js_coalesce (a b : value) : value := if is_nullish a then b else a.

Fixpoint join (sep : string) (l : list string) : string :=
  match l with
  | [] => ""
  | [s] => s
  | s :: rest => s +:+ sep +:+ join sep rest
  end.

(** [ToString], as [String(v)] and every built-in taking a string argument
    apply it.  An array prints its elements separated by commas, [null]
    and [undefined] elements as the empty string; an integer prints in
    decimal (as JavaScript does below 10^21). *)
Fixpoint ToString (v : value) : string :=
  match v with
  | VUndefined => "undefined"
  | VNull => "null"
  | VBool true => "true"
  | VBool false => "false"
  | VNum n => pretty n
  | VStr s => s
  | VArr items =>
      join "," (List.map (λ x, if is_nullish x then "" else ToString x) items)
  | VObj _ => "[object Object]"
  end.

(** [typeof v === "number"] and [Array.isArray(v)]. *)
Definition is_number (v : value) : bool :=
  match v with VNum _ => true | _ => false end.

Definition Array_isArray (v : value) : bool :=
  match v with VArr _ => true | _ => false end.

(** [s === v] for a string [s]: strict equality never converts. *)
Definition str_strict_eq (s : string) (v : value) : bool :=
  match v with
  | VStr t => String.eqb s t
  | _ => false
  end.

(** *** Properties *)

(** [o.k] on an object: the value of the own property [k], [undefined]
    when there is none. *)
Fixpoint get_field (o : object) (k : string) : value :=
  match o with
  | [] => VUndefined
  | (k', v) :: rest => if String.eqb k' k then v else get_field rest k
  end.

(** [{ ...o, k: v }]: an own property keeps its place and takes the new
    value, a new one goes last. *)
Fixpoint set_field (o : object) (k : string) (v : value) : object :=
  match o with
  | [] => [(k, v)]
  | (k', v') :: rest =>
      if String.eqb k' k then (k', v) :: rest else (k', v') :: set_field rest k v
  end.

(** [v.k] on any value, for the property names the code reads ([id],
    [username], [password]): reading a property of [null] or [undefined]
    throws, a primitive or an array has no such property. *)
Definition get_prop (v : value) (k : string) : outcome value :=
  match v with
  | VUndefined | VNull => Throws TypeError
  | VObj o => Returns (get_field o k)
  | _ => Returns VUndefined
  end.

Definition string_chars (s : string) : list string :=
  List.map (λ c, String c "") (list_ascii_of_string s).

Definition indexed (l : list value) : object :=
  imap (λ i x, (pretty (Z.of_nat i), x)) l.

(** The own enumerable properties [{ ...v }] copies. *)
Definition spread (v : value) : object :=
  match v with
  | VObj o => o
  | VArr items => indexed items
  | VStr s => indexed (List.map VStr (string_chars s))
  | _ => []
  end.

(** ** Strings *)

(** Strings are byte strings; the case mapping and the white space below are
    those of ASCII text. *)
Definition is_space (c : ascii) : bool :=
  let n := N_of_ascii c in ((9 <=? n) && (n <=? 13) || (n =? 32))%N.

Fixpoint trimStart (s : string) : string :=
  match s with
  | EmptyString => EmptyString
  | String c rest => if is_space c then trimStart rest else s
  end.

Fixpoint trimEnd (s : string) : string :=
  match s with
  | EmptyString => EmptyString
  | String c rest =>
      match trimEnd rest with
      | EmptyString => if is_space c then EmptyString else String c EmptyString
      | t => String c t
      end
  end.

Definition trim (s : string) : string := trimEnd (trimStart s).

Definition lower_char (c : ascii) : ascii :=
  let n := N_of_ascii c in
  if ((65 <=? n) && (n <=? 90))%N then ascii_of_N (n + 32) else c.

Fixpoint toLowerCase (s : string) : string :=
  match s with
  | EmptyString => EmptyString
  | String c rest => String (lower_char c) (toLowerCase rest)
  end.

Fixpoint startsWith (s p : string) : bool :=
  match p, s with
  | EmptyString, _ => true
  | String _ _, EmptyString => false
  | String a p', String b s' => Ascii.eqb a b && startsWith s' p'
  end.

(** [s.includes(needle)]. *)
Fixpoint includes (s needle : string) : bool :=
  startsWith s needle ||
  match s with
  | EmptyString => false
  | String _ rest => includes rest needle
  end.

(** ** The browser *)

(** The services of the browser the code relies on.  [JSON_parse] gives
    [None] where [JSON.parse] throws a [SyntaxError]; [JSON_stringify]
    gives [None] where [JSON.stringify] returns [undefined]; [Date_parse]
    gives [None] where [Date.parse] returns [NaN]; [randomUUID n] is the
    identifier the [n]-th call of [crypto.randomUUID()] returns. *)
Class Platform : Type := {
  JSON_parse : string → option value;
  JSON_stringify : value → option string;
  Date_parse : string → option Z;
  randomUUID : nat → string;
}.

(** [localStorage], the number of identifiers handed out so far, and the
    clock [Date.now()] reads. *)
Record world : Type := World {
  storage : gmap string string;
  issued : nat;
  clock : Z;
}.

(** Code that reads and writes a state and may throw. *)
Definition M (S A : Type) : Type := S → outcome A * S.

#[global] Instance M_ret {S} : MRet (M S) := λ A a s, (Returns a, s).
#[global] Instance M_bind {S} : MBind (M S) := λ A B f m s,
  match m s with
  | (Returns a, s') => f a s'
  | (Throws e, s') => (Throws e, s')
  end.

Definition throw {S A} (e : exn) : M S A := λ s, (Throws e, s).

Definition lift {S A} (o : outcome A) : M S A := λ s, (o, s).

(** [try { body } catch { handler }]: the handler runs in the state the
    body left behind. *)
Definition try_catch {S A} (body handler : M S A) : M S A := λ s,
  match body s with
  | (Returns a, s') => (Returns a, s')
  | (Throws _, s') => handler s'
  end.

Definition localStorage_getItem (k : string) : M world value := λ w,
  (Returns (match storage w !! k with Some s => VStr s | None => VNull end), w).

Definition localStorage_setItem (k s : string) : M world unit := λ w,
  (Returns tt, World (<[k := s]> (storage w)) (issued w) (clock w)).

Definition localStorage_removeItem (k : string) : M world unit := λ w,
  (Returns tt, World (delete k (storage w)) (issued w) (clock w)).

Definition Date_now : M world Z := λ w, (Returns (clock w), w).

Section Source.
Context {env : Platform}.

Definition crypto_randomUUID : M world value := λ w,
  (Returns (VStr (randomUUID (issued w))),
   World (storage w) (S (issued w)) (clock w)).

(** [JSON.parse(v)]. *)
Definition JSON_parse_value {S} (v : value) : M S value :=
  match JSON_parse (ToString v) with
  | Some r => mret r
  | None => throw SyntaxError
  end.

(** [JSON.stringify(v)], as the string [setItem] stores. *)
Definition JSON_stringify_text (v : value) : string :=
  match JSON_stringify v with
  | Some s => s
  | None => ToString VUndefined
  end.

(** ** [useLocalStorage] (src/hooks/useLocalStorage.js) *)

(** The initial state:
    [const raw = localStorage.getItem(key);
     return raw ? JSON.parse(raw) : initial;] *)
Definition useLocalStorage_init (key : string) (initial : value)
  : M world value :=
  raw ← localStorage_getItem key;
  if truthy raw then JSON_parse_value raw else mret initial.

(** The effect, run after the first render and after every render that
    changed [key] or [value]:
    [localStorage.setItem(key, JSON.stringify(value));] *)
Definition useLocalStorage_effect (key : string) (v : value) : M world unit :=
  localStorage_setItem key (JSON_stringify_text v).

(** The first render of a component calling [useLocalStorage(key, initial)]:
    the state is initialised, then the effect runs.  The result is the
    [value] the hook returns. *)
Definition useLocalStorage (key : string) (initial : value) : M world value :=
  v ← useLocalStorage_init key initial;
  useLocalStorage_effect key v;;
  mret v.

(** [setValue(v)] followed by the render it causes. *)
Definition useLocalStorage_setValue (key : string) (v : value)
  : M world value :=
  useLocalStorage_effect key v;;
  mret v.

(** ** [AuthProvider] (src/context/AuthContext.jsx) *)

(** The two pieces of state of the provider. *)
Record auth : Type := Auth {
  isAuthed : value;
  storedAccount : value;
}.

Definition setAuthed (v : value) : M auth unit := λ st,
  (Returns tt, Auth v (storedAccount st)).

Definition setStoredAccount (v : value) : M auth unit := λ st,
  (Returns tt, Auth (isAuthed st) v).

Definition get_storedAccount : M auth value := λ st,
  (Returns (storedAccount st), st).

Definition failure (msg : string) : value :=
  VObj [("ok", VBool false); ("error", VStr msg)].

Definition is_empty (s : string) : bool := String.eqb s "".

(** [login(un, pw)].  No function of the provider reads a piece of state
    after setting it, so the setters may take effect at once. *)
Definition login (un pw : value) : M auth value :=
  try_catch
    (let user := trim (ToString (js_coalesce un (VStr ""))) in
     let input := trim (ToString (js_coalesce pw (VStr ""))) in
     if is_empty user || is_empty input then
       mret (failure "Incorrect username or password")
     else
       stored ← get_storedAccount;
       let acc := js_coalesce stored VNull in
       matched ←
         (if truthy acc then
            name ← lift (get_prop acc "username");
            if str_strict_eq user name then
              pass ← lift (get_prop acc "password");
              mret (str_strict_eq input pass)
            else mret false
          else mret false);
       if matched : bool then
         setAuthed (VBool true);;
         mret (VObj [("ok", VBool true)])
       else mret (failure "Incorrect username or password"))
    (mret (failure "Internal auth error")).

(** [createAccount(un, pw)]. *)
Definition createAccount (un pw : value) : M auth value :=
  try_catch
    (let user := trim (ToString (js_coalesce un (VStr ""))) in
     let input := trim (ToString (js_coalesce pw (VStr ""))) in
     if is_empty user then mret (failure "Username required")
     else if is_empty input then mret (failure "Password required")
     else
       stored ← get_storedAccount;
       taken ←
         (if truthy stored then
            name ← lift (get_prop stored "username");
            mret (str_strict_eq user name)
          else mret false);
       if taken : bool then mret (failure "Account already exists")
       else
         setStoredAccount
           (VObj [("username", VStr user); ("password", VStr input)]);;
         setAuthed (VBool true);;
         mret (VObj [("ok", VBool true); ("created", VBool true)]))
    (mret (failure "Failed to create account")).

(** [logout()]. *)
Definition logout : M auth unit := setAuthed (VBool false).

(** The first render of the provider: its two [useLocalStorage] calls. *)
Definition AuthProvider_mount : M world auth :=
  a ← useLocalStorage "isAuthed" (VBool false);
  acc ← useLocalStorage "auth:account" VNull;
  mret (Auth a acc).

(** The effects of the render that follows a change of the state. *)
Definition AuthProvider_effects (st : auth) : M world unit :=
  useLocalStorage_effect "isAuthed" (isAuthed st);;
  useLocalStorage_effect "auth:account" (storedAccount st).

(** ** [getPosts] and [savePosts] (src/sections/Blog.jsx) *)

Definition day_ms : Z := 1000 * 60 * 60 * 24.

Definition makeDefaults : M world (list value) :=
  now ← Date_now;
  id1 ← crypto_randomUUID;
  id2 ← crypto_randomUUID;
  id3 ← crypto_randomUUID;
  mret
    [ VObj [("id", id1);
            ("title", VStr "Welcome to the Blog");
            ("body", VStr "This is your first post. You can edit or delete it, or create your own. Pro tip: add tags like #intro to make filtering easier.");
            ("tags", VArr [VStr "intro"; VStr "welcome"]);
            ("image", VStr "/placeholder.jpg");
            ("createdAt", VNum now)];
      VObj [("id", id2);
            ("title", VStr "Adding Images to Posts");
            ("body", VStr "Attach a photo to your post. Large images are downscaled in some places to keep things snappy.");
            ("tags", VArr [VStr "howto"; VStr "images"]);
            ("image", VStr "/placeholder.jpg");
            ("createdAt", VNum (now - day_ms))];
      VObj [("id", id3);
            ("title", VStr "Tag Filtering Demo");
            ("body", VStr "Use the tag chips above the list to filter posts. Try clicking on #demo or #tips.");
            ("tags", VArr [VStr "demo"; VStr "tips"]);
            ("image", VStr "/placeholder.jpg");
            ("createdAt", VNum (now - 1000 * 60 * 60 * 48))] ].

(** [savePosts(posts)].  [localStorage] has no quota here, so nothing in
    the [try] block throws. *)
Definition savePosts (posts : value) : M world unit :=
  try_catch
    (match posts with
     | VArr [] => localStorage_removeItem "posts"
     | _ => localStorage_setItem "posts" (JSON_stringify_text posts)
     end)
    (mret tt).

(** [{ ...p, id: p.id ?? crypto.randomUUID() }] *)
Definition normalize_id (p : value) : M world value :=
  id ← lift (get_prop p "id");
  id' ← (if is_nullish id then crypto_randomUUID else mret id);
  mret (VObj (set_field (spread p) "id" id')).

Definition seed_defaults : M world (list value) :=
  defaults ← makeDefaults;
  savePosts (VArr defaults);;
  mret defaults.

(** [getPosts()]; the result is the list of items of the array returned. *)
Definition getPosts : M world (list value) :=
  try_catch
    (text ← localStorage_getItem "posts";
     raw ← JSON_parse_value (js_or text (VStr "[]"));
     match raw with
     | VArr ((_ :: _) as items) => mapM normalize_id items
     | _ => seed_defaults
     end)
    seed_defaults.

End Source.

(** ** The derived list of [Blog] (src/sections/Blog.jsx, [filtered]) *)

(** The posts are objects of the heap; the array [posts] holds references
    to them.  The memo reads the objects and never writes one, so the heap
    is an argument and not a result. *)
Definition loc : Type := nat.
Definition heap : Type := loc → object.

(** [Array.prototype.filter] with a callback that may throw. *)
Fixpoint filterM {A} (f : A → outcome bool) (l : list A) : outcome (list A) :=
  match l with
  | [] => mret []
  | x :: rest =>
      keep ← f x;
      kept ← filterM f rest;
      mret (if keep : bool then x :: kept else kept)
  end.

Fixpoint sort_insert {A} (cmp : A → A → Z) (x : A) (l : list A) : list A :=
  match l with
  | [] => [x]
  | y :: rest =>
      if (cmp x y <=? 0)%Z then x :: y :: rest else y :: sort_insert cmp x rest
  end.

(** [Array.prototype.sort(cmp)].  The sort of ECMAScript is stable, and the
    comparators of this file order by an integer key, so the result is the
    one stable sorted arrangement, whichever algorithm the engine runs;
    insertion from the right computes it. *)
Fixpoint Array_sort {A} (cmp : A → A → Z) (l : list A) : list A :=
  match l with
  | [] => []
  | x :: rest => sort_insert cmp x (Array_sort cmp rest)
  end.

(** [(v || "").toLowerCase()]: a truthy [v] that is no string has no
    method [toLowerCase], and the call throws. *)
Definition lower_or_empty (v : value) : outcome string :=
  match js_or v (VStr "") with
  | VStr s => Returns (toLowerCase s)
  | _ => Throws TypeError
  end.

(** [Array.isArray(p.tags) ? p.tags : []] *)
Definition tags_of (p : object) : list value :=
  match get_field p "tags" with
  | VArr items => items
  | _ => []
  end.

(** The callback of the text search. *)
Definition matches_search (needle : string) (p : object) : outcome bool :=
  title ← lower_or_empty (get_field p "title");
  content ← lower_or_empty
    (js_or (js_or (get_field p "content") (get_field p "body"))
           (get_field p "excerpt"));
  tags ← mapM lower_or_empty (tags_of p);
  mret (includes title needle || includes content needle
        || existsb (λ t, includes t needle) tags).

(** [tags.includes(t)] for a string [t]. *)
Definition tags_include (tags : list value) (t : string) : bool :=
  existsb (str_strict_eq t) tags.

(** The callback of the tag filter:
    [selectedTags.every((t) => tags.includes(t))] *)
Definition has_selected_tags (selectedTags : list string) (p : object) : bool :=
  forallb (tags_include (tags_of p)) selectedTags.

Section QueryEngine.
Context {env : Platform}.

(** [getTime(p)] *)
Definition getTime (p : object) : Z :=
  match get_field p "createdAt" with
  | VNum n => n
  | createdAt =>
      match Date_parse
              (ToString (js_or (js_or (get_field p "date")
                                      (get_field p "publishedAt"))
                               createdAt)) with
      | Some t => t
      | None => 0
      end
  end.

(** The comparator handed to [out.sort]. *)
Definition by_time (h : heap) (sort : string) (a b : loc) : Z :=
  if String.eqb sort "newest" then getTime (h b) - getTime (h a)
  else getTime (h a) - getTime (h b).

(** The body of the [filtered] memo, the [derive] of the specification:
    the posts, the search text, the selected tags and the sort order give
    the list shown. *)
Definition filtered (h : heap) (posts : list loc) (search : string)
    (selectedTags : list string) (sort : string) : outcome (list loc) :=
  let list := posts in
  let needle := toLowerCase (trim search) in
  out ← (if is_empty needle then mret list
         else filterM (λ p, matches_search needle (h p)) list);
  let out :=
    match selectedTags with
    | [] => out
    | _ :: _ => List.filter (λ p, has_selected_tags selectedTags (h p)) out
    end in
  mret (Array_sort (by_time h sort) out).

End QueryEngine.

(** ** The rest of [Blog] (src/sections/Blog.jsx) *)

(** The equality of [Set] and of [Array.prototype.includes].  Primitives are
    compared by value.  An array or an object is the same value only as
    itself, and the tags of the posts, read from a JSON text or typed into
    the form, are never one object twice: two of them are not the same
    value. *)
Definition SameValueZero (a b : value) : bool :=
  match a, b with
  | VUndefined, VUndefined | VNull, VNull => true
  | VBool x, VBool y => Bool.eqb x y
  | VNum x, VNum y => (x =? y)%Z
  | VStr x, VStr y => String.eqb x y
  | _, _ => false
  end.

(** [set.add(v)] on the elements of a [Set] in insertion order. *)
Definition Set_add (seen : list value) (v : value) : list value :=
  if existsb (SameValueZero v) seen then seen else seen ++ [v].

(** [Array.from(new Set(l))] *)
Definition Array_from_Set (l : list value) : list value :=
  fold_left Set_add l [].

(** The [allTags] memo:
    [posts.flatMap((p) => (Array.isArray(p.tags) ? p.tags : []))],
    then [Array.from(new Set(tags))]. *)
Definition allTags (h : heap) (posts : list loc) : list value :=
  Array_from_Set (flat_map (λ p, tags_of (h p)) posts).

(** [onToggleTag(tag)], as the update of [selectedTags]:
    [t.includes(tag) ? t.filter((x) => x !== tag) : [...t, tag]] *)
Definition onToggleTag (tag : string) (t : list string) : list string :=
  if existsb (String.eqb tag) t
  then List.filter (λ x, negb (String.eqb x tag)) t
  else t ++ [tag].

(** [deletePost(id)], as the update of [posts]:
    [ps.filter((p) => p.id !== id)].  The identifier is a string, as
    [crypto.randomUUID] hands them out. *)
Definition deletePost (h : heap) (id : string) (ps : list loc) : list loc :=
  List.filter (λ p, negb (str_strict_eq id (get_field (h p) "id"))) ps.

(** The first render of [Blog]: [useState(getPosts())] gives the posts,
    and the effect [savePosts(posts)] stores them. *)
Definition Blog_mount {env : Platform} : M world (list value) :=
  posts ← getPosts;
  savePosts (VArr posts);;
  mret posts.

(** ** [BlogPostForm] (src/components/BlogPostForm.jsx) *)

(** [s.split(sep)] for a separator of one character. *)
Fixpoint split (sep : ascii) (s : string) : list string :=
  match s with
  | EmptyString => [EmptyString]
  | String c rest =>
      if Ascii.eqb c sep then EmptyString :: split sep rest
      else match split sep rest with
           | [] => [String c EmptyString]
           | word :: words => String c word :: words
           end
  end.

Module BlogPostForm.

(** The four controlled inputs of the form. *)
Record form : Type := Form {
  title : string;
  body : string;
  tags : string;
  image : string;
}.

(** [tags.split(",").map((t) => t.trim()).filter(Boolean)] *)
Definition tag_list (tags : string) : list string :=
  List.filter (λ t, negb (is_empty t)) (List.map trim (split "," tags)).

Section Submit.
Context {env : Platform}.

(** [submit(e)]: the post handed to [onCreate], if any, and the inputs
    after it. *)
Definition submit (f : form) : M world (option value * form) :=
  if is_empty (trim (title f)) then mret (None, f)
  else
    id ← crypto_randomUUID;
    now ← Date_now;
    let post :=
      VObj [("id", id);
            ("title", VStr (trim (title f)));
            ("body", VStr (trim (body f)));
            ("tags", VArr (VStr <$> tag_list (tags f)));
            ("image", VStr (image f));
            ("createdAt", VNum now)] in
    mret (Some post, Form "" "" "" "").

End Submit.

End BlogPostForm.

(** ** [App] and [AuthModal] (src/App.jsx) *)

Module App.

(** The first render of [App] and what follows from it.  The state
    [active] starts as ["Education"]; the two effects run in the order of
    the source, the first reading the saved tab and setting [active] to it,
    the second storing the [active] of that render; the render caused by
    the first effect runs the second effect again, with the restored tab.
    The result is the tab shown in the end. *)
Definition mount : M world string :=
  let active := "Education" in
  saved ← localStorage_getItem "activeTab";
  localStorage_setItem "activeTab" active;;
  if truthy saved then
    localStorage_setItem "activeTab" (ToString saved);;
    mret (ToString saved)
  else mret active.

(** [setActive(tab)] and the effect of the render it causes. *)
Definition setActive (tab : string) : M world string :=
  localStorage_setItem "activeTab" tab;;
  mret tab.

End App.

Module AuthModal.

(** The state of the dialog. *)
Record modal : Type := Modal {
  mode : string;
  un : string;
  pw : string;
  pw2 : string;
  err : value;
  busy : bool;
}.

Definition setErr (e : value) (m : modal) : modal :=
  Modal (mode m) (un m) (pw m) (pw2 m) e (busy m).

Definition setBusy (b : bool) (m : modal) : modal :=
  Modal (mode m) (un m) (pw m) (pw2 m) (err m) b.

(** [res?.error] *)
Definition error_of (res : value) : outcome value :=
  if is_nullish res then Returns VUndefined else get_prop res "error".

(** [res.ok !== true], read only when [res] is truthy. *)
Definition not_ok (res : value) : outcome bool :=
  ok ← get_prop res "ok";
  mret (match ok with VBool true => false | _ => true end).

(** [onSubmit(e)]: the state of the dialog after it, together with what
    the call of the context did to the state of the provider. *)
Definition onSubmit (m : modal) : M auth modal :=
  let m := setErr (VStr "") m in
  let password := pw m in
  if is_empty password then mret (setErr (VStr "Password required") m)
  else if String.eqb (mode m) "create" && negb (String.eqb (pw2 m) (pw m))
  then mret (setErr (VStr "Passwords do not match") m)
  else
    let m := setBusy true m in
    m' ← try_catch
      (res ← (if String.eqb (mode m) "login"
              then login (VStr (un m)) (VStr password)
              else createAccount (VStr (un m)) (VStr password));
       failed ← (if truthy res then lift (not_ok res) else mret true);
       if failed : bool then
         e ← lift (error_of res);
         mret (setErr (js_or e (VStr (if String.eqb (mode m) "login"
                                      then "Incorrect username or password"
                                      else "Could not create account"))) m)
       else mret m)
      (mret (setErr (VStr "Something went wrong") m));
    mret (setBusy false m').

End AuthModal.

(** ** A reference browser *)

(** An executable [Platform], to run the code above on concrete stores and
    posts: JSON texts over integer numbers and ASCII strings, [Date.parse]
    on the date-only form [YYYY-MM-DD], and a counter for the identifiers.
    The theorems below hold for every [Platform]; this one instantiates
    them. *)
Module Reference.

Definition dquote : ascii := ascii_of_nat 34.
Definition backslash : ascii := ascii_of_nat 92.

Definition json_space (c : ascii) : bool :=
  let n := N_of_ascii c in ((n =? 32) || (n =? 9) || (n =? 10) || (n =? 13))%N.

Fixpoint skip_ws (s : string) : string :=
  match s with
  | EmptyString => EmptyString
  | String c rest => if json_space c then skip_ws rest else s
  end.

Definition digit_of (c : ascii) : option Z :=
  let n := N_of_ascii c in
  if ((48 <=? n) && (n <=? 57))%N then Some (Z.of_N n - 48) else None.

Definition hex_of (c : ascii) : option N :=
  let n := N_of_ascii c in
  if ((48 <=? n) && (n <=? 57))%N then Some (n - 48)%N
  else if ((97 <=? n) && (n <=? 102))%N then Some (n - 87)%N
  else if ((65 <=? n) && (n <=? 70))%N then Some (n - 55)%N
  else None.

Definition unescape (c : ascii) : option ascii :=
  if Ascii.eqb c dquote then Some dquote
  else if Ascii.eqb c backslash then Some backslash
  else match c with
       | "/"%char => Some "/"%char
       | "b"%char => Some (ascii_of_nat 8)
       | "f"%char => Some (ascii_of_nat 12)
       | "n"%char => Some (ascii_of_nat 10)
       | "r"%char => Some (ascii_of_nat 13)
       | "t"%char => Some (ascii_of_nat 9)
       | _ => None
       end.

(** The characters of a string literal, after its opening quote. *)
Fixpoint parse_chars (s : string) : option (string * string) :=
  match s with
  | EmptyString => None
  | String c rest =>
      if Ascii.eqb c dquote then Some (EmptyString, rest)
      else if Ascii.eqb c backslash then
        match rest with
        | String "u" (String a (String b (String c1 (String c2 rest')))) =>
            ha ← hex_of a; hb ← hex_of b; h1 ← hex_of c1; h2 ← hex_of c2;
            let code := (((ha * 16 + hb) * 16 + h1) * 16 + h2)%N in
            if (code <? 128)%N then
              '(t, out) ← parse_chars rest';
              Some (String (ascii_of_N code) t, out)
            else None
        | String e rest' =>
            x ← unescape e;
            '(t, out) ← parse_chars rest';
            Some (String x t, out)
        | EmptyString => None
        end
      else if (N_of_ascii c <? 32)%N then None
      else '(t, out) ← parse_chars rest; Some (String c t, out)
  end.

Fixpoint parse_digits (acc : Z) (s : string) : Z * string :=
  match s with
  | EmptyString => (acc, s)
  | String c rest =>
      match digit_of c with
      | Some d => parse_digits (acc * 10 + d) rest
      | None => (acc, s)
      end
  end.

(** An integer literal; a fraction or an exponent is outside the model. *)
Definition parse_int (s : string) : option (Z * string) :=
  match s with
  | EmptyString => None
  | String c rest =>
      d ← digit_of c;
      let '(n, out) := if (d =? 0)%Z then (0, rest) else parse_digits d rest in
      match out with
      | String "." _ | String "e" _ | String "E" _ => None
      | _ => Some (n, out)
      end
  end.

Definition parse_number (s : string) : option (value * string) :=
  match s with
  | String "-" rest => '(n, out) ← parse_int rest; Some (VNum (- n), out)
  | _ => '(n, out) ← parse_int s; Some (VNum n, out)
  end.

Definition keyword (word : string) (v : value) (s : string)
  : option (value * string) :=
  if startsWith s word
  then Some (v, String.substring (String.length word)
                  (String.length s - String.length word) s)
  else None.

(** The elements of an array after [[], and the members of an object after
    [{], with [pv] reading one value. *)
Fixpoint parse_items (fuel : nat) (pv : string → option (value * string))
    (s : string) : option (list value * string) :=
  match fuel with
  | O => None
  | S n =>
      '(v, rest) ← pv s;
      match skip_ws rest with
      | String "," rest' =>
          '(vs, out) ← parse_items n pv rest'; Some (v :: vs, out)
      | String "]" out => Some ([v], out)
      | _ => None
      end
  end.

Fixpoint parse_members (fuel : nat) (pv : string → option (value * string))
    (s : string) : option (object * string) :=
  match fuel with
  | O => None
  | S n =>
      match skip_ws s with
      | String q rest =>
          if Ascii.eqb q dquote then
            '(k, rest) ← parse_chars rest;
            match skip_ws rest with
            | String ":" rest =>
                '(v, rest) ← pv rest;
                match skip_ws rest with
                | String "," rest' =>
                    '(o, out) ← parse_members n pv rest';
                    (* of two members of one name the later gives the value *)
                    Some ((k, if existsb (λ kv, String.eqb (fst kv) k) o
                              then get_field o k else v)
                            :: List.filter
                                 (λ kv, negb (String.eqb (fst kv) k)) o,
                          out)
                | String "}" out => Some ([(k, v)], out)
                | _ => None
                end
            | _ => None
            end
          else None
      | EmptyString => None
      end
  end.

Fixpoint parse_value (fuel : nat) (s : string) : option (value * string) :=
  match fuel with
  | O => None
  | S n =>
      match skip_ws s with
      | EmptyString => None
      | String c rest as text =>
          if Ascii.eqb c dquote then
            '(t, out) ← parse_chars rest; Some (VStr t, out)
          else
            match c with
            | "n"%char => keyword "null" VNull text
            | "t"%char => keyword "true" (VBool true) text
            | "f"%char => keyword "false" (VBool false) text
            | "["%char =>
                match skip_ws rest with
                | String "]" out => Some (VArr [], out)
                | _ =>
                    '(vs, out) ← parse_items (String.length rest)
                                   (parse_value n) rest;
                    Some (VArr vs, out)
                end
            | "{"%char =>
                match skip_ws rest with
                | String "}" out => Some (VObj [], out)
                | _ =>
                    '(o, out) ← parse_members (String.length rest)
                                  (parse_value n) rest;
                    Some (VObj o, out)
                end
            | _ => parse_number text
            end
      end
  end.

Definition parse (s : string) : option value :=
  '(v, rest) ← parse_value (S (String.length s)) s;
  match skip_ws rest with
  | EmptyString => Some v
  | _ => None
  end.

Definition hex_digit (n : N) : ascii :=
  if (n <? 10)%N then ascii_of_N (48 + n) else ascii_of_N (87 + n).

Definition escape_char (c : ascii) : string :=
  if Ascii.eqb c dquote then String backslash (String dquote EmptyString)
  else if Ascii.eqb c backslash then String backslash (String backslash EmptyString)
  else
    let n := N_of_ascii c in
    if (n =? 8)%N then String backslash "b"
    else if (n =? 9)%N then String backslash "t"
    else if (n =? 10)%N then String backslash "n"
    else if (n =? 12)%N then String backslash "f"
    else if (n =? 13)%N then String backslash "r"
    else if (n <? 32)%N then
      String backslash
        ("u00" +:+ String (hex_digit (n / 16)) (String (hex_digit (n mod 16)) EmptyString))
    else String c EmptyString.

Fixpoint escape (s : string) : string :=
  match s with
  | EmptyString => EmptyString
  | String c rest => escape_char c +:+ escape rest
  end.

Definition quote (s : string) : string :=
  String dquote (escape s +:+ String dquote EmptyString).

Fixpoint stringify (v : value) : option string :=
  match v with
  | VUndefined => None
  | VNull => Some "null"
  | VBool true => Some "true"
  | VBool false => Some "false"
  | VNum n => Some (pretty n)
  | VStr s => Some (quote s)
  | VArr items =>
      Some ("[" +:+ join "," (List.map (λ x, default "null" (stringify x)) items)
            +:+ "]")
  | VObj props =>
      let fix members (l : object) : list string :=
        match l with
        | [] => []
        | (k, x) :: rest =>
            match stringify x with
            | Some t => (quote k +:+ ":" +:+ t) :: members rest
            | None => members rest
            end
        end in
      Some ("{" +:+ join "," (members props) +:+ "}")
  end.

Definition days_in_month (y m : Z) : Z :=
  if (m =? 2)%Z then
    if ((y mod 4 =? 0) && (negb (y mod 100 =? 0) || (y mod 400 =? 0)))%Z
    then 29 else 28
  else if ((m =? 4) || (m =? 6) || (m =? 9) || (m =? 11))%Z then 30 else 31.

(** Days from 1970-01-01 to the civil date [y]-[m]-[d]. *)
Definition days_from_civil (y m d : Z) : Z :=
  let y' := if (m <=? 2)%Z then y - 1 else y in
  let era := y' / 400 in
  let yoe := y' - era * 400 in
  let doy := (153 * (if (m >? 2)%Z then m - 3 else m + 9) + 2) / 5 + d - 1 in
  let doe := yoe * 365 + yoe / 4 - yoe / 100 + doy in
  era * 146097 + doe - 719468.

Definition number_of (digits : list ascii) : option Z :=
  foldl (λ acc c, a ← acc; d ← digit_of c; Some (a * 10 + d)) (Some 0) digits.

Definition date_parse (s : string) : option Z :=
  match list_ascii_of_string s with
  | [y1; y2; y3; y4; "-"%char; m1; m2; "-"%char; d1; d2] =>
      y ← number_of [y1; y2; y3; y4];
      m ← number_of [m1; m2];
      d ← number_of [d1; d2];
      if ((1 <=? m) && (m <=? 12) && (1 <=? d) && (d <=? days_in_month y m))%Z
      then Some (days_from_civil y m d * 86400000)
      else None
  | _ => None
  end.

Definition uuid (n : nat) : string := "uuid-" +:+ pretty n.

Definition browser : Platform := {|
  JSON_parse := parse;
  JSON_stringify := stringify;
  Date_parse := date_parse;
  randomUUID := uuid;
|}.

End Reference.

(** ** Vocabulary of the properties *)

(** The trimmed text [String(v ?? "").trim()] both operations compute from
    an argument. *)
Definition credential (v : value) : string :=
  trim (ToString (js_coalesce v (VStr ""))).

Definition incorrect : value := failure "Incorrect username or password".

(** *** Records *)

(** A field that holds a string or is absent ([undefined], or the [null]
    of a JSON text). *)
Definition optional_string (v : value) : bool :=
  match v with
  | VUndefined | VNull | VStr _ => true
  | _ => false
  end.

Definition is_string (v : value) : bool :=
  match v with VStr _ => true | _ => false end.

(** The shape of a Record as far as the search reads it: the title and the
    three content fields are strings where present, the tags are strings
    where [tags] is an array. *)
Definition record_shaped (p : object) : bool :=
  optional_string (get_field p "title")
  && optional_string (get_field p "content")
  && optional_string (get_field p "body")
  && optional_string (get_field p "excerpt")
  && forallb is_string (tags_of p).

Definition text_of (v : value) : string :=
  match v with
  | VStr s => s
  | _ => ""
  end.

Fixpoint first_nonempty (l : list string) : string :=
  match l with
  | [] => ""
  | s :: rest => if is_empty s then first_nonempty rest else s
  end.

(** The primary content field: the first non-empty of [content], [body],
    [excerpt]. *)
Definition primary_content (p : object) : string :=
  first_nonempty [text_of (get_field p "content");
                  text_of (get_field p "body");
                  text_of (get_field p "excerpt")].



(** The tags of a record include every selected tag. *)
Definition tags_superset (selectedTags : list string) (p : object) : Prop :=
  ∀ t, t ∈ selectedTags → VStr t ∈ tags_of p.

(** [search_hit] as the callback computes it on a shaped record. *)
Definition search_hitb (needle : string) (p : object) : bool :=
  includes (toLowerCase (text_of (get_field p "title"))) needle
  || includes (toLowerCase (primary_content p)) needle
  || existsb (λ t, includes t needle)
       (List.map (λ v, toLowerCase (text_of v)) (tags_of p)).

(** The text search of [filtered] alone. *)
Definition search_stage (h : heap) (posts : list loc) (search : string)
  : outcome (list loc) :=
  let needle := toLowerCase (trim search) in
  if is_empty needle then Returns posts
  else filterM (λ p, matches_search needle (h p)) posts.

(** *** Sort keys *)

Section SortKeys.
Context {env : Platform}.

(** The sort key in the words of the specification: a numeric [createdAt]
    directly; otherwise [date], [publishedAt], [createdAt] are tried as
    date strings in this order and the first that parses is the key; 0
    when none parses. *)
Definition parses_as_date (v : value) : option Z :=
  match v with
  | VStr s => Date_parse s
  | _ => None
  end.

Fixpoint first_parsed (candidates : list value) : Z :=
  match candidates with
  | [] => 0
  | v :: rest =>
      match parses_as_date v with
      | Some t => t
      | None => first_parsed rest
      end
  end.

Definition sort_key_claimed (p : object) : Z :=
  match get_field p "createdAt" with
  | VNum n => n
  | createdAt =>
      first_parsed [get_field p "date"; get_field p "publishedAt"; createdAt]
  end.

(** The one value [getTime] hands to [Date.parse]: the first of [date],
    [publishedAt], [createdAt] that is set, [createdAt] when none is. *)
Definition time_source (p : object) : value :=
  default (get_field p "createdAt")
    (List.find truthy [get_field p "date"; get_field p "publishedAt";
                       get_field p "createdAt"]).

End SortKeys.

(** The derived list is in the order of [sort]. *)
Definition in_order {env : Platform} (h : heap) (sort : string)
    (out : list loc) : Prop :=
  if String.eqb sort "newest"
  then StronglySorted (λ a b, (getTime (h b) <= getTime (h a))%Z) out
  else StronglySorted (λ a b, (getTime (h a) <= getTime (h b))%Z) out.

(** *** Identifiers *)

(** A record without an [id]: the property is missing or [null]. *)
Definition lacks_id (o : object) : bool := is_nullish (get_field o "id").

Definition missing_ids (items : list object) : nat :=
  length (List.filter lacks_id items).

(** The normalisation of a stored collection, [n] identifiers having been
    handed out before: each record without an [id] takes the next one. *)
Fixpoint normalized {env : Platform} (n : nat) (items : list object)
  : list object :=
  match items with
  | [] => []
  | o :: rest =>
      if lacks_id o
      then set_field o "id" (VStr (randomUUID n)) :: normalized (S n) rest
      else o :: normalized n rest
  end.

(** *** Accounts *)

(** The property [k] of [acc] is the string [s]; a value without
    properties, [null] or [undefined] included, has none. *)
Definition field_is (acc : value) (k s : string) : bool :=
  match get_prop acc k with
  | Returns v => str_strict_eq s v
  | Throws _ => false
  end.

(** The arguments of [login] are the credentials of the stored account:
    neither is blank, and both are as stored. *)
Definition credentials_match (un pw acc : value) : bool :=
  negb (is_empty (credential un)) && negb (is_empty (credential pw))
  && field_is acc "username" (credential un)
  && field_is acc "password" (credential pw).

Definition account (user input : string) : value :=
  VObj [("username", VStr user); ("password", VStr input)].

Definition created : value := VObj [("ok", VBool true); ("created", VBool true)].

Definition logged_in : value := VObj [("ok", VBool true)].

(** *** The stored collection *)

(** The text [getPosts] hands to [JSON.parse]:
    [localStorage.getItem("posts") || "[]"]. *)
Definition posts_text (w : world) : string :=
  match storage w !! "posts" with
  | Some s => if is_empty s then "[]" else s
  | None => "[]"
  end.

Definition has_id (v : value) : Prop :=
  ∃ o, v = VObj o ∧ lacks_id o = false.

(** No two entries of a list are the same value. *)
Definition no_repeats (l : list value) : Prop :=
  ∀ i j a b, l !! i = Some a → l !! j = Some b →
             SameValueZero a b = true → i = j.

(** ** Sample data *)

(** The two posts of the example of the specification, and a post of an
    older shape whose [date] is no date and whose [publishedAt] is. *)
Definition cats : object :=
  [("title", VStr "Cats"); ("tags", VArr [VStr "pets"]); ("createdAt", VNum 100)].

Definition dogs : object :=
  [("title", VStr "Dogs"); ("tags", VArr [VStr "pets"; VStr "fun"]);
   ("createdAt", VNum 200)].

Definition launch : object :=
  [("title", VStr "Launch"); ("date", VStr "not a date");
   ("publishedAt", VStr "2020-01-01")].

Definition sample_heap : heap := λ l,
  match l with
  | 0%nat => cats
  | 1%nat => dogs
  | 2%nat => launch
  | _ => []
  end.

(** A first run: nothing stored. *)
Definition fresh_world : world := World ∅ 0 0.

(** A store whose entry for the profile name is no JSON text. *)
Definition corrupt_world : world := World {["profile:name" := "{"]} 0 0.

(** A stored collection two of whose records were saved before records
    had identifiers. *)
Definition legacy_posts : list object :=
  [ [("title", VStr "A")];
    [("id", VStr "x1"); ("title", VStr "B")];
    [("title", VStr "C"); ("id", VNull); ("tags", VArr [VStr "old"])] ].

Definition legacy_text : string :=
  default "" (Reference.stringify (VArr (VObj <$> legacy_posts))).

Definition legacy_world : world := World {["posts" := legacy_text]} 7 0.

Definition alice : value :=
  VObj [("username", VStr "alice"); ("password", VStr "secret")].

(** A store whose entry for the profile name is the empty string. *)
Definition blank_world : world := World {["profile:name" := ""]} 0 0.

(** Three posts with identifiers, the third with the time of the first. *)
Definition id_heap : heap := λ l,
  match l with
  | 0%nat => ("id", VStr "p0") :: cats
  | 1%nat => ("id", VStr "p1") :: dogs
  | 2%nat => [("id", VStr "p2"); ("title", VStr "Birds");
              ("tags", VArr [VStr "pets"; VStr "wild"]); ("createdAt", VNum 100)]
  | _ => []
  end.

(** A collection of records that all have identifiers, and its text. *)
Definition kept_posts : list object :=
  [("id", VStr "p0") :: cats; ("id", VStr "p1") :: dogs].

Definition kept_text : string :=
  default "" (Reference.stringify (VArr (VObj <$> kept_posts))).

(** A stored collection with a [null] after its first record. *)
Definition holed_text : string :=
  default "" (Reference.stringify (VArr [VObj [("title", VStr "A")]; VNull; VObj cats])).

Definition holed_world : world := World {["posts" := holed_text]} 7 0.

(** The inputs of a post form. *)
Definition draft : BlogPostForm.form :=
  BlogPostForm.Form "  Hello " " A first text. " " pets, ,fun ,, wild " "".

(** * Properties *)

(** Unfolds the plumbing of [M] and [outcome]. *)
Ltac run :=
  repeat (unfold mbind, mret, M_bind, M_ret, outcome_bind, outcome_ret,
                 lift, throw, try_catch; simpl).

(** ** PersistentStore *)

Section PersistentStore.
Context {env : Platform}.

Lemma truthy_VStr (s : string) : s ≠ "" → truthy (VStr s) = true.
Proof. intros Hs. simpl. by destruct (String.eqb_spec s ""). Qed.

(** The initial state alone neither writes nor copies: on an absent key it
    is the default, and the store is the one it found. *)
Lemma useLocalStorage_init_absent (k : string) (d : value) (w : world) :
  storage w !! k = None → useLocalStorage_init k d w = (Returns d, w).
Proof.
  intros Hk. unfold useLocalStorage_init, localStorage_getItem. run.
  by rewrite Hk.
Qed.

(** A stored text that [JSON.parse] rejects makes the initial state throw:
    nothing around the call catches the [SyntaxError]. *)
Lemma useLocalStorage_init_corrupt (k raw : string) (d : value) (w : world) :
  storage w !! k = Some raw → raw ≠ "" → JSON_parse raw = None →
  useLocalStorage_init k d w = (Throws SyntaxError, w) ∧
  useLocalStorage k d w = (Throws SyntaxError, w).
Proof.
  intros Hk Hraw Hparse.
  assert (useLocalStorage_init k d w = (Throws SyntaxError, w)) as Hinit.
  { unfold useLocalStorage_init, localStorage_getItem. run.
    rewrite Hk, (truthy_VStr raw Hraw).
    unfold JSON_parse_value. simpl. by rewrite Hparse. }
  split; [done|]. unfold useLocalStorage. run. by rewrite Hinit.
Qed.

(** C1 (amended): on a key with no entry the hook returns the default, and
    its initial state leaves the store as it is; but the effect of the
    first render then stores the serialised default under the key, without
    any call of the setter. *)
Theorem useLocalStorage_untouched_key (k : string) (d : value) (w : world) :
  storage w !! k = None →
  useLocalStorage_init k d w = (Returns d, w) ∧
  useLocalStorage k d w =
    (Returns d,
     World (<[k := JSON_stringify_text d]> (storage w)) (issued w) (clock w)) ∧
  storage (useLocalStorage k d w).2 !! k = Some (JSON_stringify_text d).
Proof.
  intros Hk.
  pose proof (useLocalStorage_init_absent k d w Hk) as Hinit.
  split; [done|].
  assert (useLocalStorage k d w =
    (Returns d,
     World (<[k := JSON_stringify_text d]> (storage w)) (issued w) (clock w)))
    as Hmount.
  { unfold useLocalStorage. run. by rewrite Hinit. }
  split; [done|]. rewrite Hmount. simpl. apply lookup_insert_eq.
Qed.

(** Every write is read back: the entry the effect stores is the one the
    next initial state parses. *)
Lemma useLocalStorage_setValue_stored (k : string) (v : value) (w : world) :
  storage (useLocalStorage_setValue k v w).2 !! k = Some (JSON_stringify_text v).
Proof. unfold useLocalStorage_setValue. run. apply lookup_insert_eq. Qed.

End PersistentStore.

(** ** CollectionSeeder: [savePosts] *)

Section SavePosts.
Context {env : Platform}.


(** Neither form touches another key. *)
Lemma savePosts_frame (w : world) (posts : value) (k : string) :
  k ≠ "posts" → storage (savePosts posts w).2 !! k = storage w !! k.
Proof.
  intros Hk. unfold savePosts. run.
  destruct posts as [| | | | |[|p ps]|]; simpl;
    by rewrite ?lookup_insert_ne, ?lookup_delete_ne.
Qed.

End SavePosts.

(** ** AuthGate *)

Section AuthGate.

Lemma is_empty_false (s : string) : s ≠ "" → is_empty s = false.
Proof. intros Hs. unfold is_empty. by destruct (String.eqb_spec s ""). Qed.

Lemma str_strict_eq_true (s : string) (v : value) :
  str_strict_eq s v = true ↔ v = VStr s.
Proof.
  destruct v; simpl; try (split; [discriminate | congruence]).
  rewrite String.eqb_eq. split; congruence.
Qed.

Lemma str_strict_eq_false (s : string) (v : value) :
  v ≠ VStr s → str_strict_eq s v = false.
Proof.
  intros Hv. destruct (str_strict_eq s v) eqn:E; [|done].
  by apply str_strict_eq_true in E.
Qed.

(** [login] with the stored credentials succeeds and opens the session. *)
Lemma login_matching (st : auth) (un pw : value) (a : object) :
  credential un ≠ "" → credential pw ≠ "" →
  storedAccount st = VObj a →
  get_field a "username" = VStr (credential un) →
  get_field a "password" = VStr (credential pw) →
  login un pw st = (Returns (VObj [("ok", VBool true)]),
                    Auth (VBool true) (storedAccount st)).
Proof.
  unfold credential. intros Hu Hp Hacc Hname Hpass.
  destruct st as [authed acc]. simpl in Hacc. subst acc.
  unfold login, get_storedAccount, setAuthed. run.
  rewrite (is_empty_false _ Hu), (is_empty_false _ Hp). simpl.
  rewrite Hname. simpl. rewrite String.eqb_refl, Hpass. simpl.
  by rewrite String.eqb_refl.
Qed.

(** C7: with both fields non-empty after trimming, [login] fails when no
    account is stored and when the stored account differs in the username
    or in the password, and the two failures are the same value,
    [{ ok: false, error: "Incorrect username or password" }]; neither
    changes the state. *)
Theorem login_failure_uniform (st_none st_bad : auth) (un pw : value)
    (a : object) :
  credential un ≠ "" → credential pw ≠ "" →
  is_nullish (storedAccount st_none) = true →
  storedAccount st_bad = VObj a →
  get_field a "username" ≠ VStr (credential un)
    ∨ get_field a "password" ≠ VStr (credential pw) →
  login un pw st_none = (Returns incorrect, st_none) ∧
  login un pw st_bad = (Returns incorrect, st_bad) ∧
  (login un pw st_none).1 = (login un pw st_bad).1 ∧
  get_prop incorrect "ok" = Returns (VBool false).
Proof.
  unfold credential. intros Hu Hp Hnone Hacc Hbad.
  assert (login un pw st_none = (Returns incorrect, st_none)) as H1.
  { destruct st_none as [authed acc]. simpl in Hnone.
    unfold login, get_storedAccount. run.
    rewrite (is_empty_false _ Hu), (is_empty_false _ Hp). simpl.
    by destruct acc. }
  assert (login un pw st_bad = (Returns incorrect, st_bad)) as H2.
  { destruct st_bad as [authed acc]. simpl in Hacc. subst acc.
    unfold login, get_storedAccount. run.
    rewrite (is_empty_false _ Hu), (is_empty_false _ Hp). simpl.
    destruct (str_strict_eq _ (get_field a "username")) eqn:Ename; [|done].
    apply str_strict_eq_true in Ename. simpl.
    destruct Hbad as [Hbad|Hbad]; [done|].
    by rewrite (str_strict_eq_false _ _ Hbad). }
  rewrite H1, H2. done.
Qed.

(** [createAccount] on a first run: nothing is stored, the account is. *)
Lemma createAccount_first (st : auth) (un pw : value) :
  credential un ≠ "" → credential pw ≠ "" →
  is_nullish (storedAccount st) = true →
  createAccount un pw st =
    (Returns (VObj [("ok", VBool true); ("created", VBool true)]),
     Auth (VBool true)
          (VObj [("username", VStr (credential un));
                 ("password", VStr (credential pw))])).
Proof.
  unfold credential. intros Hu Hp Hnone.
  destruct st as [authed acc]. simpl in Hnone.
  unfold createAccount, get_storedAccount, setStoredAccount, setAuthed. run.
  rewrite (is_empty_false _ Hu), (is_empty_false _ Hp). simpl.
  by destruct acc.
Qed.

(** C3 (amended): while an account is stored, [createAccount] with another
    username (both fields non-empty after trimming) succeeds with
    [{ ok: true, created: true }], puts the new account in the place of the
    stored one and opens the session; it is rejected with
    ["Account already exists"], the state unchanged, when the username is
    that of the stored account. *)
Theorem createAccount_second_account (st : auth) (un pw : value) (a : object) :
  credential un ≠ "" → credential pw ≠ "" →
  storedAccount st = VObj a →
  (get_field a "username" ≠ VStr (credential un) →
   createAccount un pw st =
     (Returns (VObj [("ok", VBool true); ("created", VBool true)]),
      Auth (VBool true)
           (VObj [("username", VStr (credential un));
                  ("password", VStr (credential pw))]))) ∧
  (get_field a "username" = VStr (credential un) →
   createAccount un pw st = (Returns (failure "Account already exists"), st)).
Proof.
  unfold credential. intros Hu Hp Hacc.
  destruct st as [authed acc]. simpl in Hacc. subst acc.
  unfold createAccount, get_storedAccount, setStoredAccount, setAuthed. run.
  rewrite (is_empty_false _ Hu), (is_empty_false _ Hp). simpl.
  split; intros Hname.
  - by rewrite (str_strict_eq_false _ _ Hname).
  - rewrite Hname. simpl. by rewrite String.eqb_refl.
Qed.

(** [logout] closes the session and keeps the account. *)
Lemma logout_keeps_account (st : auth) :
  logout st = (Returns tt, Auth (VBool false) (storedAccount st)).
Proof. reflexivity. Qed.

Section Persisted.
Context {env : Platform}.

(** After the render that follows, the entry of the account is the
    serialised account of the state. *)
Lemma AuthProvider_effects_account (st : auth) (w : world) :
  storage (AuthProvider_effects st w).2 !! "auth:account"
    = Some (JSON_stringify_text (storedAccount st)).
Proof. unfold AuthProvider_effects. run. apply lookup_insert_eq. Qed.

End Persisted.

End AuthGate.

(** ** Strings and lists *)



Lemma filterM_total {A} (f : A → outcome bool) (g : A → bool) (l : list A) :
  (∀ x, x ∈ l → f x = Returns (g x)) →
  filterM f l = Returns (List.filter g l).
Proof.
  induction l as [|x l IH]; intros Hf; [done|].
  simpl. rewrite (Hf x) by left. run.
  rewrite IH by (intros y Hy; apply Hf; by right). by destruct (g x).
Qed.

Lemma filterM_sublist {A} (f : A → outcome bool) (l out : list A) :
  filterM f l = Returns out → sublist out l.
Proof.
  revert out. induction l as [|x l IH]; intros out; simpl.
  - intros [= <-]. constructor.
  - run. destruct (f x) as [keep|]; [|done].
    destruct (filterM f l) as [kept|]; [|done].
    intros [= <-]. destruct keep; constructor; by apply IH.
Qed.

Lemma filterM_keeps {A} (f : A → outcome bool) (l out : list A) (x : A) :
  filterM f l = Returns out → x ∈ out → f x = Returns true.
Proof.
  revert out. induction l as [|y l IH]; intros out; simpl.
  - intros [= <-] Hx. by apply elem_of_nil in Hx.
  - run. destruct (f y) as [keep|] eqn:Ey; [|done].
    destruct (filterM f l) as [kept|]; [|done].
    intros [= <-] Hx. destruct keep; [|by eapply IH].
    apply elem_of_cons in Hx as [->|Hx]; [done|by eapply IH].
Qed.

Lemma filter_sublist {A} (g : A → bool) (l : list A) :
  sublist (List.filter g l) l.
Proof.
  induction l as [|x l IH]; simpl; [constructor|].
  destruct (g x); by constructor.
Qed.

Lemma elem_of_filter_bool {A} (g : A → bool) (l : list A) (x : A) :
  x ∈ List.filter g l ↔ x ∈ l ∧ g x = true.
Proof. rewrite !list_elem_of_In. apply filter_In. Qed.

(** *** Sorting *)

Section Sorting.
Context {A : Type} (cmp : A → A → Z).

Lemma sort_insert_perm (x : A) (l : list A) : sort_insert cmp x l ≡ₚ x :: l.
Proof.
  induction l as [|y l IH]; simpl; [done|].
  destruct (cmp x y <=? 0)%Z; [done|]. rewrite IH. apply Permutation_swap.
Qed.

Lemma Array_sort_perm (l : list A) : Array_sort cmp l ≡ₚ l.
Proof.
  induction l as [|x l IH]; simpl; [done|].
  by rewrite sort_insert_perm, IH.
Qed.

(** A comparator that orders by an integer key. *)
Context (key : A → Z) (Hcmp : ∀ a b, (cmp a b <= 0 ↔ key a <= key b)%Z).

Lemma sort_insert_sorted (x : A) (l : list A) :
  StronglySorted (λ a b, (key a <= key b)%Z) l →
  StronglySorted (λ a b, (key a <= key b)%Z) (sort_insert cmp x l).
Proof.
  induction 1 as [|y l Hl IH Hy]; simpl.
  - repeat constructor.
  - destruct (Z.leb_spec (cmp x y) 0) as [Hle|Hgt].
    + apply Hcmp in Hle. constructor; [by constructor|].
      constructor; [done|].
      eapply Forall_impl; [exact Hy|]. simpl. intros z Hz. lia.
    + assert (key y <= key x)%Z as Hyx.
      { destruct (Z.le_gt_cases (key x) (key y)) as [Hxy|Hxy]; [|lia].
        apply Hcmp in Hxy. lia. }
      constructor; [done|].
      rewrite sort_insert_perm. by constructor.
Qed.



Lemma Array_sort_sorted (l : list A) :
  StronglySorted (λ a b, (key a <= key b)%Z) (Array_sort cmp l).
Proof.
  induction l as [|x l IH]; simpl; [constructor|].
  by apply sort_insert_sorted.
Qed.

End Sorting.

(** ** QueryEngine *)

Section SearchCallback.

Lemma lower_or_empty_optional (v : value) :
  optional_string v = true →
  lower_or_empty v = Returns (toLowerCase (text_of v)).
Proof.
  destruct v as [| | | |s| |]; try done.
  intros _. unfold lower_or_empty, js_or. simpl.
  by destruct (String.eqb_spec s "") as [->|].
Qed.

Lemma lower_or_empty_content (c b e : value) :
  optional_string c = true → optional_string b = true →
  optional_string e = true →
  lower_or_empty (js_or (js_or c b) e)
    = Returns (toLowerCase (first_nonempty [text_of c; text_of b; text_of e])).
Proof.
  intros Hc Hb He.
  destruct c as [| | | |sc| |]; try done;
    destruct b as [| | | |sb| |]; try done;
    destruct e as [| | | |se| |]; try done;
    cbn [first_nonempty text_of];
    unfold lower_or_empty, js_or, is_empty; simpl;
    repeat match goal with
           | |- context [String.eqb ?s ""] =>
               destruct (String.eqb_spec s "") as [->|]; simpl
           end; done.
Qed.

Lemma mapM_cons `{MBind F, MRet F} {A B} (f : A → F B) (x : A) (l : list A) :
  mapM f (x :: l) = y ← f x; ys ← mapM f l; mret (y :: ys).
Proof. reflexivity. Qed.

Lemma mapM_lower_strings (tags : list value) :
  forallb is_string tags = true →
  mapM lower_or_empty tags
    = Returns (List.map (λ v, toLowerCase (text_of v)) tags).
Proof.
  induction tags as [|v tags IH]; [done|].
  cbn [forallb]. rewrite andb_true_iff. intros [Hv Htags].
  destruct v as [| | | |s| |]; try done.
  rewrite mapM_cons, (lower_or_empty_optional (VStr s)), (IH Htags) by done.
  done.
Qed.

(** On a shaped record the callback of the search does not throw, and
    answers whether the record is a hit. *)
Lemma matches_search_shaped (needle : string) (p : object) :
  record_shaped p = true →
  matches_search needle p = Returns (search_hitb needle p).
Proof.
  unfold record_shaped. rewrite !andb_true_iff.
  intros [[[[Ht Hc] Hb] He] Htags].
  unfold matches_search, search_hitb, primary_content.
  rewrite (lower_or_empty_optional _ Ht),
    (lower_or_empty_content _ _ _ Hc Hb He), (mapM_lower_strings _ Htags).
  done.
Qed.


Lemma has_selected_tags_spec (selectedTags : list string) (p : object) :
  has_selected_tags selectedTags p = true ↔ tags_superset selectedTags p.
Proof.
  unfold has_selected_tags, tags_superset, tags_include.
  rewrite forallb_forall. split.
  - intros Hall t Ht. apply list_elem_of_In in Ht.
    apply Hall, existsb_exists in Ht as (v & Hv & Heq).
    apply str_strict_eq_true in Heq as ->. by apply list_elem_of_In.
  - intros Hall t Ht. apply existsb_exists. exists (VStr t). split.
    + apply list_elem_of_In, Hall. by apply list_elem_of_In.
    + by apply str_strict_eq_true.
Qed.

(** A record whose [tags] is no array has no tag. *)
Lemma tags_of_not_array (p : object) :
  Array_isArray (get_field p "tags") = false → tags_of p = [].
Proof. unfold tags_of. by destruct (get_field p "tags"). Qed.

End SearchCallback.

Lemma StronglySorted_weaken {A} (R R' : A → A → Prop) (l : list A) :
  (∀ a b, R a b → R' a b) → StronglySorted R l → StronglySorted R' l.
Proof.
  intros HR. induction 1 as [|x l Hl IH Hx]; constructor; [done|].
  eapply Forall_impl; [exact Hx|]. intros y. apply HR.
Qed.

Lemma filter_all {A} (l : list A) : List.filter (λ _, true) l = l.
Proof. induction l as [|x l IH]; simpl; by rewrite ?IH. Qed.

Lemma submseteq_filter_bool {A} (g : A → bool) (l1 l2 : list A) :
  l1 ⊆+ l2 → List.filter g l1 ⊆+ List.filter g l2.
Proof.
  induction 1 as [|x l1 l2 ? IH|x y l|x l1 l2 ? IH|l1 l2 l3 ? IH1 ? IH2];
    simpl.
  - constructor.
  - destruct (g x); [by constructor|done].
  - destruct (g x), (g y); try done. apply submseteq_swap.
  - destruct (g x); [by constructor|done].
  - by etrans.
Qed.

Section Derive.
Context {env : Platform}.

(** [filtered] is the search, then the tag filter, then the sort. *)
Lemma filtered_stages (h : heap) (posts : list loc) (search : string)
    (selectedTags : list string) (sort : string) :
  filtered h posts search selectedTags sort =
    kept ← search_stage h posts search;
    mret (Array_sort (by_time h sort)
            (List.filter (λ p, has_selected_tags selectedTags (h p)) kept)).
Proof.
  unfold filtered, search_stage.
  destruct (is_empty (toLowerCase (trim search))); run.
  - destruct selectedTags; [|done]. simpl. by rewrite filter_all.
  - destruct (filterM _ posts); [|done].
    destruct selectedTags; [|done]. simpl. by rewrite filter_all.
Qed.

Lemma search_stage_shaped (h : heap) (posts : list loc) (search : string) :
  (∀ l, l ∈ posts → record_shaped (h l) = true) →
  search_stage h posts search =
    Returns (if is_empty (toLowerCase (trim search)) then posts
             else List.filter
                    (λ l, search_hitb (toLowerCase (trim search)) (h l)) posts).
Proof.
  intros Hshape. unfold search_stage.
  destruct (is_empty (toLowerCase (trim search))); [done|].
  apply filterM_total. intros l Hl. by apply matches_search_shaped, Hshape.
Qed.

Lemma search_stage_sublist (h : heap) (posts kept : list loc) (search : string) :
  search_stage h posts search = Returns kept → sublist kept posts.
Proof.
  unfold search_stage. destruct (is_empty _).
  - by intros [= <-].
  - apply filterM_sublist.
Qed.

(** Without a search text, or on shaped records, [filtered] returns. *)
Lemma filtered_returns (h : heap) (posts : list loc) (search : string)
    (selectedTags : list string) (sort : string) :
  toLowerCase (trim search) = ""
    ∨ (∀ l, l ∈ posts → record_shaped (h l) = true) →
  ∃ out, filtered h posts search selectedTags sort = Returns out.
Proof.
  intros [Hneedle|Hshape]; rewrite filtered_stages.
  - unfold search_stage. rewrite Hneedle. simpl. run. eauto.
  - rewrite (search_stage_shaped _ _ _ Hshape). run. eauto.
Qed.

Lemma elem_of_filtered (h : heap) (posts kept out : list loc) (search : string)
    (selectedTags : list string) (sort : string) (l : loc) :
  search_stage h posts search = Returns kept →
  filtered h posts search selectedTags sort = Returns out →
  l ∈ out ↔ l ∈ kept ∧ tags_superset selectedTags (h l).
Proof.
  intros Hkept. rewrite filtered_stages, Hkept. run. intros [= <-].
  by rewrite Array_sort_perm, elem_of_filter_bool, has_selected_tags_spec.
Qed.

Lemma by_time_in_order (h : heap) (sort : string) (l : list loc) :
  in_order h sort (Array_sort (by_time h sort) l).
Proof.
  unfold in_order.
  destruct (String.eqb sort "newest") eqn:Esort.
  - eapply StronglySorted_weaken;
      [|apply (Array_sort_sorted (by_time h sort) (λ a, - getTime (h a))%Z)].
    + simpl. intros a b. lia.
    + intros a b. unfold by_time. rewrite Esort. lia.
  - apply (Array_sort_sorted (by_time h sort) (λ a, getTime (h a))).
    intros a b. unfold by_time. rewrite Esort. lia.
Qed.

Lemma getTime_not_number (p : object) :
  is_number (get_field p "createdAt") = false →
  getTime p =
    default 0 (Date_parse
                 (ToString (js_or (js_or (get_field p "date")
                                         (get_field p "publishedAt"))
                                  (get_field p "createdAt")))).
Proof. unfold getTime. by destruct (get_field p "createdAt"). Qed.

(** C4 (amended): a numeric [createdAt] is the sort key; otherwise one
    value is parsed as a date, the first of [date], [publishedAt],
    [createdAt] that is set ([createdAt] itself when none is), and the key
    is the time it parses to, or 0 when it does not parse: the fields after
    it are not tried.  The derived list is descending by this key for
    ["newest"] and ascending otherwise. *)
Theorem getTime_resolution (h : heap) (posts : list loc) (search : string)
    (selectedTags : list string) (sort : string) (p : object) :
  (∀ n, get_field p "createdAt" = VNum n → getTime p = n) ∧
  (is_number (get_field p "createdAt") = false →
   getTime p = default 0 (Date_parse (ToString (time_source p)))) ∧
  (∀ out, filtered h posts search selectedTags sort = Returns out →
          in_order h sort out).
Proof.
  split; [|split].
  - intros n Hn. unfold getTime. by rewrite Hn.
  - intros Hnum. rewrite (getTime_not_number p Hnum). f_equal. f_equal.
    f_equal. unfold time_source, js_or. simpl.
    generalize (get_field p "date") (get_field p "publishedAt")
      (get_field p "createdAt").
    intros d pu c.
    destruct (truthy d) eqn:Ed; simpl; rewrite ?Ed; [done|].
    destruct (truthy pu) eqn:Epu; simpl; rewrite ?Epu; [done|].
    by destruct (truthy c).
  - intros out. rewrite filtered_stages.
    destruct (search_stage h posts search); run; [|done].
    intros [= <-]. apply by_time_in_order.
Qed.


(** C6: with a non-empty selection of tags and no search text, [filtered]
    keeps exactly the records whose tags include every selected tag; under
    any search text a kept record has every selected tag, and its [tags]
    is an array: a record with a missing or non-array [tags] has no tag
    and is left out. *)
Theorem filtered_selected_tags (h : heap) (posts : list loc) (search : string)
    (selectedTags : list string) (sort : string) :
  selectedTags ≠ [] →
  (toLowerCase (trim search) = "" →
   ∃ out, filtered h posts search selectedTags sort = Returns out ∧
     ∀ l, l ∈ out ↔ l ∈ posts ∧ tags_superset selectedTags (h l)) ∧
  (∀ out l, filtered h posts search selectedTags sort = Returns out →
     l ∈ out →
     tags_superset selectedTags (h l)
     ∧ Array_isArray (get_field (h l) "tags") = true).
Proof.
  intros Hsel. split.
  - intros Hneedle.
    destruct (filtered_returns h posts search selectedTags sort) as [out Hout];
      [by left|].
    exists out. split; [done|]. intros l.
    apply (elem_of_filtered h posts posts out search selectedTags sort l);
      [|done].
    unfold search_stage. by rewrite Hneedle.
  - intros out l Hout Hl.
    destruct (search_stage h posts search) as [kept|] eqn:Hkept.
    + pose proof (elem_of_filtered h posts kept out search selectedTags sort l
                    Hkept Hout) as Hiff.
      destruct (proj1 Hiff Hl) as [_ Htags]. split; [done|].
      destruct (Array_isArray (get_field (h l) "tags")) eqn:Harr; [done|].
      destruct selectedTags as [|t ts]; [done|].
      specialize (Htags t (list_elem_of_here _ _)).
      rewrite (tags_of_not_array _ Harr) in Htags.
      by apply elem_of_nil in Htags.
    + rewrite filtered_stages, Hkept in Hout. done.
Qed.

(** C10: [filtered] only filters and reorders.  Whatever it returns is, up
    to order, a sublist of the references it was given: every element is
    one of [posts], and none occurs more often than there.  The heap is
    not written.  On records of the Record shape it does return. *)
Theorem filtered_filters_and_reorders (h : heap) (posts : list loc)
    (search : string) (selectedTags : list string) (sort : string) :
  ((∀ l, l ∈ posts → record_shaped (h l) = true) →
   ∃ out, filtered h posts search selectedTags sort = Returns out) ∧
  (∀ out, filtered h posts search selectedTags sort = Returns out →
     out ⊆+ posts ∧ (∀ l, l ∈ out → l ∈ posts) ∧
     (∀ l, length (List.filter (Nat.eqb l) out)
             ≤ length (List.filter (Nat.eqb l) posts))%nat).
Proof.
  split; [intros Hshape; apply filtered_returns; by right|].
  intros out Hout.
  assert (out ⊆+ posts) as Hsub.
  { rewrite filtered_stages in Hout.
    destruct (search_stage h posts search) as [kept|] eqn:Hkept; [|done].
    apply search_stage_sublist in Hkept. revert Hout. run. intros [= <-].
    rewrite Array_sort_perm. apply sublist_submseteq.
    etrans; [apply filter_sublist|done]. }
  split; [done|]. split.
  - intros l Hl. by eapply elem_of_submseteq.
  - intros l. by apply submseteq_length, submseteq_filter_bool.
Qed.

End Derive.

(** ** CollectionSeeder: [getPosts] *)

Lemma get_field_set_field (o : object) (k : string) (v : value) :
  get_field (set_field o k v) k = v.
Proof.
  induction o as [|[k' v'] o IH]; simpl.
  - by rewrite String.eqb_refl.
  - destruct (String.eqb k' k) eqn:E; simpl; by rewrite E.
Qed.

Lemma get_field_set_field_ne (o : object) (k k' : string) (v : value) :
  k' ≠ k → get_field (set_field o k v) k' = get_field o k'.
Proof.
  intros Hne. induction o as [|[k0 v0] o IH]; simpl.
  - by destruct (String.eqb_spec k k').
  - destruct (String.eqb_spec k0 k) as [->|]; simpl.
    + by destruct (String.eqb_spec k k').
    + by rewrite IH.
Qed.

(** [{ ...o, id: o.id }] is [o] when [o] has an [id]. *)
Lemma set_field_same (o : object) (k : string) :
  get_field o k ≠ VUndefined → set_field o k (get_field o k) = o.
Proof.
  induction o as [|[k' v'] o IH]; simpl; [done|].
  destruct (String.eqb k' k); [done|]. intros Hk. by rewrite IH.
Qed.

Section GetPosts.
Context {env : Platform}.

Lemma normalize_id_object (o : object) (w : world) :
  normalize_id (VObj o) w =
    if lacks_id o
    then (Returns (VObj (set_field o "id" (VStr (randomUUID (issued w))))),
          World (storage w) (S (issued w)) (clock w))
    else (Returns (VObj o), w).
Proof.
  unfold normalize_id, lacks_id, crypto_randomUUID. run.
  destruct (is_nullish (get_field o "id")) eqn:Eid; [done|].
  rewrite set_field_same; [done|]. by intros Hid; rewrite Hid in Eid.
Qed.

Lemma mapM_normalize_id (items : list object) (w : world) :
  mapM normalize_id (VObj <$> items) w =
    (Returns (VObj <$> normalized (issued w) items),
     World (storage w) (issued w + missing_ids items) (clock w)).
Proof.
  revert w. induction items as [|o items IH]; intros w.
  - destruct w. unfold missing_ids. simpl. by rewrite Nat.add_0_r.
  - rewrite fmap_cons, mapM_cons. unfold mbind at 1, M_bind at 1.
    rewrite normalize_id_object. unfold missing_ids. simpl.
    destruct (lacks_id o); unfold mbind at 1, M_bind at 1; rewrite IH; simpl.
    + by rewrite Nat.add_succ_r.
    + done.
Qed.

Lemma normalized_length (n : nat) (items : list object) :
  length (normalized n items) = length items.
Proof.
  revert n. induction items as [|o items IH]; intros n; simpl; [done|].
  destruct (lacks_id o); simpl; by rewrite IH.
Qed.

(** The record at index [i] keeps its place; without an [id] it takes the
    identifier whose number is the count of such records before it. *)
Lemma normalized_lookup (n : nat) (items : list object) (i : nat) (o : object) :
  items !! i = Some o →
  normalized n items !! i =
    Some (if lacks_id o
          then set_field o "id"
                 (VStr (randomUUID (n + missing_ids (take i items))))
          else o).
Proof.
  revert n i. induction items as [|x items IH]; intros n i Hi; [done|].
  destruct i as [|i]; simpl in Hi.
  - injection Hi as ->. unfold missing_ids. simpl.
    destruct (lacks_id o); simpl; by rewrite ?Nat.add_0_r.
  - unfold missing_ids in *. simpl.
    destruct (lacks_id x); simpl; rewrite (IH _ _ Hi); [|done].
    by rewrite Nat.add_succ_r.
Qed.

Lemma missing_ids_lt (items : list object) (i j : nat) (o : object) :
  items !! i = Some o → lacks_id o = true → (i < j)%nat →
  (missing_ids (take i items) < missing_ids (take j items))%nat.
Proof.
  unfold missing_ids.
  revert i j. induction items as [|x items IH]; intros i j Hi Ho Hij; [done|].
  destruct j as [|j]; [lia|]. destruct i as [|i]; simpl in *.
  - injection Hi as ->. rewrite Ho. simpl. lia.
  - specialize (IH i j Hi Ho ltac:(lia)).
    destruct (lacks_id x); simpl; lia.
Qed.

(** The path of [getPosts] on a stored non-empty array of records. *)
Lemma getPosts_stored (w : world) (raw : string) (items : list object) :
  storage w !! "posts" = Some raw → raw ≠ "" →
  JSON_parse raw = Some (VArr (VObj <$> items)) → items ≠ [] →
  getPosts w =
    (Returns (VObj <$> normalized (issued w) items),
     World (storage w) (issued w + missing_ids items) (clock w)).
Proof.
  intros Hraw Hne Hparse Hitems.
  unfold getPosts, localStorage_getItem, JSON_parse_value, js_or.
  unfold try_catch, mbind, M_bind. rewrite Hraw, (truthy_VStr raw Hne).
  simpl. rewrite Hparse. unfold mret, M_ret.
  destruct items as [|o items]; [done|].
  rewrite fmap_cons, <- (fmap_cons VObj o items).
  by rewrite mapM_normalize_id.
Qed.

(** C9: on a stored non-empty collection of records [getPosts] returns a
    list of the same length and order and writes nothing; a record that
    has an [id] is returned as it is; a record that lacks one is returned
    with every other field as it was and an identifier from the browser,
    which, the browser handing out non-empty identifiers that are new,
    is non-empty and is the [id] of no other record of the list.  This
    holds of every load, whatever the store and the identifiers handed out
    before. *)
Theorem getPosts_normalizes (w : world) (raw : string) (items : list object) :
  storage w !! "posts" = Some raw → raw ≠ "" →
  JSON_parse raw = Some (VArr (VObj <$> items)) → items ≠ [] →
  ∃ out w',
    getPosts w = (Returns (VObj <$> out), w') ∧
    storage w' = storage w ∧
    length out = length items ∧
    ∀ i o, items !! i = Some o →
      ∃ o', out !! i = Some o' ∧
        (∀ k, k ≠ "id" → get_field o' k = get_field o k) ∧
        (lacks_id o = false → o' = o) ∧
        (lacks_id o = true →
         ∃ n, (issued w ≤ n < issued w')%nat ∧
           get_field o' "id" = VStr (randomUUID n) ∧
           ((∀ m, randomUUID m ≠ "") → randomUUID n ≠ "") ∧
           ((∀ m m', randomUUID m = randomUUID m' → m = m') →
            (∀ m o0, (issued w ≤ m)%nat → o0 ∈ items →
                     get_field o0 "id" ≠ VStr (randomUUID m)) →
            ∀ j oj, j ≠ i → out !! j = Some oj →
                    get_field oj "id" ≠ get_field o' "id")).
Proof.
  intros Hraw Hne Hparse Hitems.
  eexists _, _. split; [by apply (getPosts_stored w raw items)|].
  split; [done|]. split; [apply normalized_length|].
  intros i o Hi. eexists. split; [by apply normalized_lookup|].
  destruct (lacks_id o) eqn:Ho.
  - split; [intros k Hk; by apply get_field_set_field_ne|].
    split; [done|]. intros _.
    exists (issued w + missing_ids (take i items))%nat.
    split; [|split; [|split]].
    + simpl. split; [lia|].
      assert (missing_ids (take i items) < missing_ids items)%nat; [|lia].
      rewrite <- (firstn_all items) at 2.
      apply (missing_ids_lt items i (length items) o Hi Ho).
      by eapply lookup_lt_Some.
    + apply get_field_set_field.
    + intros Hnonempty. apply Hnonempty.
    + intros Hinj Hfresh j oj Hji Hj. rewrite get_field_set_field.
      destruct (items !! j) as [o0|] eqn:Hj0.
      2:{ apply lookup_ge_None in Hj0. apply lookup_lt_Some in Hj.
          rewrite normalized_length in Hj. lia. }
      rewrite (normalized_lookup _ _ _ _ Hj0) in Hj. injection Hj as <-.
      destruct (lacks_id o0) eqn:Ho0.
      * rewrite get_field_set_field. intros [= Heq]. apply Hinj in Heq.
        destruct (Nat.lt_total i j) as [Hlt|[->|Hlt]]; [|done|].
        -- pose proof (missing_ids_lt items i j o Hi Ho Hlt). lia.
        -- pose proof (missing_ids_lt items j i o0 Hj0 Ho0 Hlt). lia.
      * apply Hfresh; [lia|]. by eapply list_elem_of_lookup_2.
  - split; [done|]. split; [done|]. done.
Qed.

(** A stored text that [JSON.parse] rejects is caught: [getPosts] returns
    the default posts and stores them. *)
Lemma getPosts_corrupt_seeds (w : world) (raw : string) :
  storage w !! "posts" = Some raw → raw ≠ "" → JSON_parse raw = None →
  getPosts w = seed_defaults w.
Proof.
  intros Hraw Hne Hparse.
  unfold getPosts, localStorage_getItem, JSON_parse_value, js_or.
  unfold try_catch, mbind, M_bind. rewrite Hraw, (truthy_VStr raw Hne).
  simpl. by rewrite Hparse.
Qed.

Lemma seed_defaults_returns (w : world) :
  ∃ defaults w', seed_defaults w = (Returns defaults, w') ∧
    length defaults = 3%nat ∧
    storage w' !! "posts" = Some (JSON_stringify_text (VArr defaults)).
Proof.
  unfold seed_defaults, makeDefaults, savePosts, Date_now, crypto_randomUUID.
  run. eexists _, _. split; [reflexivity|]. split; [done|].
  simpl. apply lookup_insert_eq.
Qed.

End GetPosts.

(** ** The properties on the reference browser *)

Section OnReference.
#[local] Existing Instance Reference.browser.

(** C1, as stated, fails: the first render of a component that reads the
    untouched key ["profile:name"] leaves an entry under it. *)
Lemma useLocalStorage_writes_default :
  storage fresh_world !! "profile:name" = None ∧
  (useLocalStorage "profile:name" (VStr "Anonymous") fresh_world).1
    = Returns (VStr "Anonymous") ∧
  storage (useLocalStorage "profile:name" (VStr "Anonymous") fresh_world).2
    !! "profile:name" = Some (Reference.quote "Anonymous") ∧
  storage (useLocalStorage "profile:name" (VStr "Anonymous") fresh_world).2
    ≠ storage fresh_world.
Proof.
  split; [done|]. split; [done|]. split; [by vm_compute|].
  intros Heq. apply (f_equal (.!! "profile:name")) in Heq.
  vm_compute in Heq. discriminate.
Qed.

Lemma useLocalStorage_untouched_key_witness :
  useLocalStorage_init "profile:name" (VStr "Anonymous") fresh_world
    = (Returns (VStr "Anonymous"), fresh_world) ∧
  useLocalStorage "profile:name" (VStr "Anonymous") fresh_world =
    (Returns (VStr "Anonymous"),
     World (<["profile:name" := JSON_stringify_text (VStr "Anonymous")]>
              (storage fresh_world))
           (issued fresh_world) (clock fresh_world)) ∧
  storage (useLocalStorage "profile:name" (VStr "Anonymous") fresh_world).2
    !! "profile:name" = Some (JSON_stringify_text (VStr "Anonymous")).
Proof.
  apply (useLocalStorage_untouched_key "profile:name" (VStr "Anonymous")
           fresh_world).
  reflexivity.
Defined.

(** C2: the stored text [{] under ["profile:name"] is no JSON text, and the
    hook, instead of returning the default ["Anonymous"], throws the
    [SyntaxError] of [JSON.parse] to the component that called it. *)
Theorem useLocalStorage_corrupt_throws :
  storage corrupt_world !! "profile:name" = Some "{" ∧
  JSON_parse "{" = None ∧
  useLocalStorage "profile:name" (VStr "Anonymous") corrupt_world
    = (Throws SyntaxError, corrupt_world).
Proof.
  split; [by vm_compute|]. split; [by vm_compute|].
  by apply (useLocalStorage_init_corrupt "profile:name" "{").
Qed.

(** The hook can corrupt its own entry: a state set to [undefined] is
    stored as the text [undefined], which the next first render fails to
    parse. *)
Example useLocalStorage_undefined_then_throws :
  storage (useLocalStorage_setValue "profile:name" VUndefined fresh_world).2
    !! "profile:name" = Some "undefined" ∧
  (useLocalStorage "profile:name" (VStr "Anonymous")
     (useLocalStorage_setValue "profile:name" VUndefined fresh_world).2).1
    = Throws SyntaxError.
Proof. split; by vm_compute. Qed.

(** The first render of the provider on a first run: no account, no
    session, and an entry under each of its two keys. *)
Example AuthProvider_first_mount :
  (AuthProvider_mount fresh_world).1 = Returns (Auth (VBool false) VNull) ∧
  storage (AuthProvider_mount fresh_world).2 !! "isAuthed" = Some "false" ∧
  storage (AuthProvider_mount fresh_world).2 !! "auth:account" = Some "null".
Proof. repeat split; by vm_compute. Qed.

(** The scenario of the specification: no login before an account exists;
    after [createAccount("alice", "secret")] the same credentials log in,
    a wrong password does not, and a logout does not forget the account. *)
Example auth_scenario :
  let start := Auth (VBool false) VNull in
  let created := (createAccount (VStr "alice") (VStr "secret") start).2 in
  let out := (logout created).2 in
  (login (VStr "alice") (VStr "secret") start).1 = Returns incorrect ∧
  created = Auth (VBool true) alice ∧
  (login (VStr "alice") (VStr "wrong") created).1 = Returns incorrect ∧
  out = Auth (VBool false) alice ∧
  login (VStr "alice") (VStr "secret") out
    = (Returns (VObj [("ok", VBool true)]), Auth (VBool true) alice).
Proof. repeat split. Qed.

(** C3, as stated, fails: with the account of alice stored,
    [createAccount("bob", "hunter2")] succeeds and the account of bob
    takes its place. *)
Lemma createAccount_replaces_alice :
  createAccount (VStr "bob") (VStr "hunter2") (Auth (VBool false) alice) =
    (Returns (VObj [("ok", VBool true); ("created", VBool true)]),
     Auth (VBool true)
          (VObj [("username", VStr "bob"); ("password", VStr "hunter2")])).
Proof. reflexivity. Qed.

Lemma createAccount_second_account_witness :
  createAccount (VStr " bob ") (VStr "hunter2") (Auth (VBool false) alice) =
    (Returns (VObj [("ok", VBool true); ("created", VBool true)]),
     Auth (VBool true)
          (VObj [("username", VStr "bob"); ("password", VStr "hunter2")])).
Proof.
  apply (createAccount_second_account (Auth (VBool false) alice)
           (VStr " bob ") (VStr "hunter2")
           [("username", VStr "alice"); ("password", VStr "secret")]);
    [discriminate | discriminate | reflexivity | discriminate].
Defined.

Lemma login_failure_uniform_witness :
  login (VStr "alice") (VStr "wrong") (Auth (VBool false) VNull)
    = (Returns incorrect, Auth (VBool false) VNull) ∧
  login (VStr "alice") (VStr "wrong") (Auth (VBool false) alice)
    = (Returns incorrect, Auth (VBool false) alice) ∧
  (login (VStr "alice") (VStr "wrong") (Auth (VBool false) VNull)).1
    = (login (VStr "alice") (VStr "wrong") (Auth (VBool false) alice)).1 ∧
  get_prop incorrect "ok" = Returns (VBool false).
Proof.
  apply (login_failure_uniform (Auth (VBool false) VNull)
           (Auth (VBool false) alice) (VStr "alice") (VStr "wrong")
           [("username", VStr "alice"); ("password", VStr "secret")]);
    [discriminate | discriminate | reflexivity | reflexivity |].
  right. discriminate.
Defined.

(** C4, as stated, fails: the [date] of [launch] does not parse and its
    [publishedAt] does, yet the key of [launch] is 0, not the time of
    [publishedAt]. *)
Lemma getTime_stops_at_first_set :
  Date_parse "not a date" = None ∧
  Date_parse "2020-01-01" = Some 1577836800000 ∧
  sort_key_claimed launch = 1577836800000 ∧
  getTime launch = 0 ∧
  getTime launch ≠ sort_key_claimed launch.
Proof. repeat split; by vm_compute. Qed.

Lemma getTime_resolution_witness :
  getTime cats = 100 ∧
  getTime launch = 0 ∧
  in_order sample_heap "oldest" [2; 0; 1]%nat.
Proof.
  destruct (getTime_resolution sample_heap [0; 1; 2]%nat "" [] "oldest" cats)
    as (Hnum & _ & _).
  destruct (getTime_resolution sample_heap [0; 1; 2]%nat "" [] "oldest" launch)
    as (_ & Htext & Hsorted).
  split; [by apply Hnum|]. split; [by rewrite Htext|].
  apply Hsorted. by vm_compute.
Defined.

Lemma sample_heap_shaped (l : loc) :
  l ∈ [0; 1; 2]%nat → record_shaped (sample_heap l) = true.
Proof.
  intros Hl. repeat (apply elem_of_cons in Hl as [->|Hl]; [reflexivity|]).
  by apply elem_of_nil in Hl.
Qed.

(** A title that is a number is outside the Record shape: the callback of
    the search calls [toLowerCase] on it and throws. *)
Example matches_search_number_title :
  matches_search "dog" [("title", VNum 5)] = Throws TypeError.
Proof. reflexivity. Qed.

(** The example of the specification: the search for ["dog"] returns
    exactly the Dogs record. *)
Example filtered_dog : filtered sample_heap [0; 1]%nat "dog" [] "newest" = Returns [1%nat].
Proof. by vm_compute. Qed.


Example filtered_pets_fun :
  filtered sample_heap [0; 1; 2]%nat "" ["pets"; "fun"] "newest" = Returns [1%nat].
Proof. by vm_compute. Qed.

Lemma filtered_selected_tags_witness :
  (∃ out, filtered sample_heap [0; 1; 2]%nat "" ["pets"; "fun"] "newest"
            = Returns out ∧
     ∀ l, l ∈ out ↔
       l ∈ [0; 1; 2]%nat ∧ tags_superset ["pets"; "fun"] (sample_heap l)) ∧
  tags_superset ["pets"; "fun"] (sample_heap 1%nat)
  ∧ Array_isArray (get_field (sample_heap 1%nat) "tags") = true.
Proof.
  destruct (filtered_selected_tags sample_heap [0; 1; 2]%nat ""
              ["pets"; "fun"] "newest") as [Hexact Hkept]; [discriminate|].
  split; [by apply Hexact|].
  apply (Hkept [1%nat]); [by vm_compute|]. apply list_elem_of_here.
Defined.

Example filtered_oldest :
  filtered sample_heap [1; 0; 2]%nat "" [] "oldest" = Returns [2; 0; 1]%nat.
Proof. by vm_compute. Qed.

Lemma filtered_filters_and_reorders_witness :
  (∃ out, filtered sample_heap [1; 0; 2]%nat "s" ["pets"] "oldest" = Returns out) ∧
  [0; 1]%nat ⊆+ [1; 0; 2]%nat.
Proof.
  destruct (filtered_filters_and_reorders sample_heap [1; 0; 2]%nat "s"
              ["pets"] "oldest") as [Hreturns Hsub].
  split.
  - apply Hreturns. intros l Hl. apply sample_heap_shaped.
    repeat (apply elem_of_cons in Hl as [->|Hl]; [compute_done|]).
    by apply elem_of_nil in Hl.
  - apply (Hsub [0; 1]%nat). by vm_compute.
Defined.

(** A load of [legacy_posts]: the first record takes an identifier, the
    second keeps its own. *)
Example getPosts_legacy :
  (getPosts legacy_world).1 =
    Returns [VObj [("title", VStr "A"); ("id", VStr "uuid-7")];
             VObj [("id", VStr "x1"); ("title", VStr "B")];
             VObj [("title", VStr "C"); ("id", VStr "uuid-8");
                   ("tags", VArr [VStr "old"])]].
Proof. by vm_compute. Qed.

(** The identifiers of the reference browser are as the theorem asks. *)
Lemma uuid_nonempty (n : nat) : Reference.uuid n ≠ "".
Proof. discriminate. Qed.

Lemma uuid_inj (n m : nat) : Reference.uuid n = Reference.uuid m → n = m.
Proof.
  unfold Reference.uuid. cbn [String.append]. intros [= Heq].
  by apply (inj (pretty (A := nat))).
Qed.

Lemma uuid_fresh_legacy (m : nat) (o : object) :
  o ∈ legacy_posts → get_field o "id" ≠ VStr (Reference.uuid m).
Proof.
  intros Ho. repeat (apply elem_of_cons in Ho as [->|Ho]; [discriminate|]).
  by apply elem_of_nil in Ho.
Qed.

Lemma getPosts_normalizes_witness :
  ∃ out w',
    getPosts legacy_world = (Returns (VObj <$> out), w') ∧
    storage w' = storage legacy_world ∧
    length out = length legacy_posts ∧
    ∀ i o, legacy_posts !! i = Some o →
      ∃ o', out !! i = Some o' ∧
        (∀ k, k ≠ "id" → get_field o' k = get_field o k) ∧
        (lacks_id o = false → o' = o) ∧
        (lacks_id o = true →
         ∃ s, get_field o' "id" = VStr s ∧ s ≠ "" ∧
           ∀ j oj, j ≠ i → out !! j = Some oj → get_field oj "id" ≠ VStr s).
Proof.
  destruct (getPosts_normalizes legacy_world legacy_text legacy_posts)
    as (out & w' & Hload & Hstore & Hlen & Hrecords);
    [by vm_compute | by vm_compute | by vm_compute | discriminate |].
  exists out, w'. repeat split; [done..|].
  intros i o Hi. destruct (Hrecords i o Hi) as (o' & Ho' & Hfields & Hkeep & Hnew).
  exists o'. repeat split; [done..|].
  intros Hlacks. destruct (Hnew Hlacks) as (n & _ & Hid & Hnonempty & Hunique).
  exists (randomUUID n). split; [done|]. split; [apply uuid_nonempty|].
  intros j oj Hji Hj. rewrite <- Hid.
  apply (Hunique uuid_inj (λ m o0 _, uuid_fresh_legacy m o0) j oj Hji Hj).
Defined.

End OnReference.

(** * Further properties *)

(** ** Trimming *)

Lemma trimEnd_cons (c : ascii) (r : string) :
  trimEnd (String c r) =
    match trimEnd r with
    | EmptyString => if is_space c then EmptyString else String c EmptyString
    | t => String c t
    end.
Proof. reflexivity. Qed.

Lemma trimEnd_idemp (s : string) : trimEnd (trimEnd s) = trimEnd s.
Proof.
  induction s as [|c s IH]; [done|]. rewrite trimEnd_cons.
  destruct (trimEnd s) as [|c' t] eqn:Et.
  - destruct (is_space c) eqn:Ec; [done|]. rewrite trimEnd_cons. simpl.
    by rewrite Ec.
  - rewrite trimEnd_cons, IH. done.
Qed.

Lemma trimStart_head (s : string) :
  trimStart s = "" ∨ ∃ c r, trimStart s = String c r ∧ is_space c = false.
Proof.
  induction s as [|c s IH]; [by left|]. cbn [trimStart].
  destruct (is_space c) eqn:Ec; [done|]. right. eauto.
Qed.

Lemma trimEnd_head (c : ascii) (r : string) :
  is_space c = false → ∃ r', trimEnd (String c r) = String c r'.
Proof.
  intros Hc. cbn [trimEnd]. destruct (trimEnd r); [|eauto].
  rewrite Hc. eauto.
Qed.

Lemma trimStart_trim (s : string) : trimStart (trim s) = trim s.
Proof.
  unfold trim. destruct (trimStart_head s) as [->|(c & r & -> & Hc)]; [done|].
  destruct (trimEnd_head c r Hc) as [r' ->]. cbn [trimStart]. by rewrite Hc.
Qed.

(** Trimming a trimmed string changes nothing. *)
Lemma trim_idemp (s : string) : trim (trim s) = trim s.
Proof.
  unfold trim at 1. rewrite trimStart_trim. unfold trim. apply trimEnd_idemp.
Qed.

Lemma credential_idemp (v : value) : credential (VStr (credential v)) = credential v.
Proof. unfold credential at 1. simpl. apply trim_idemp. Qed.

(** ** More of PersistentStore *)

Section StoreMore.
Context {env : Platform}.

(** X1: what [setValue] stores is what the next first render reads: if
    [JSON.stringify] gives a text for the value and [JSON.parse] reads the
    value back from it, the hook started on the store the write left
    returns the value written, whatever the default, and stores the same
    text again. *)
Theorem useLocalStorage_write_then_read (k s : string) (v d : value) (w : world) :
  JSON_stringify v = Some s → s ≠ "" → JSON_parse s = Some v →
  storage (useLocalStorage_setValue k v w).2 !! k = Some s ∧
  useLocalStorage k d (useLocalStorage_setValue k v w).2
    = (Returns v, (useLocalStorage_setValue k v w).2).
Proof.
  intros Hs Hne Hparse.
  unfold useLocalStorage, useLocalStorage_init, useLocalStorage_setValue,
    useLocalStorage_effect, localStorage_getItem, localStorage_setItem,
    JSON_stringify_text, JSON_parse_value.
  run. rewrite Hs. split; [apply lookup_insert_eq|].
  rewrite lookup_insert_eq, (truthy_VStr s Hne). simpl. rewrite Hparse.
  simpl. rewrite Hs. by rewrite insert_insert_eq.
Qed.

(** X2: the hook writes under its own key only: the first render, whether
    it returns or throws, and [setValue] leave the entry of every other
    key, the identifiers and the clock as they were. *)
Theorem useLocalStorage_other_keys (k k' : string) (d v : value) (w : world) :
  k' ≠ k →
  storage (useLocalStorage k d w).2 !! k' = storage w !! k' ∧
  storage (useLocalStorage_setValue k v w).2 !! k' = storage w !! k' ∧
  issued (useLocalStorage k d w).2 = issued w ∧
  clock (useLocalStorage k d w).2 = clock w.
Proof.
  intros Hk.
  unfold useLocalStorage, useLocalStorage_init, useLocalStorage_setValue,
    useLocalStorage_effect, localStorage_getItem, localStorage_setItem,
    JSON_parse_value.
  run. destruct (storage w !! k) as [raw|]; simpl.
  - destruct (negb (String.eqb raw "")); simpl.
    + destruct (JSON_parse raw); simpl; by rewrite ?lookup_insert_ne.
    + by rewrite !lookup_insert_ne.
  - by rewrite !lookup_insert_ne.
Qed.

(** X3: an entry that is the empty string counts as no entry: the hook
    returns the default, without parsing anything, and stores the
    serialised default in its place. *)
Theorem useLocalStorage_empty_entry (k : string) (d : value) (w : world) :
  storage w !! k = Some "" →
  useLocalStorage k d w =
    (Returns d,
     World (<[k := JSON_stringify_text d]> (storage w)) (issued w) (clock w)).
Proof.
  intros Hk.
  unfold useLocalStorage, useLocalStorage_init, useLocalStorage_effect,
    localStorage_getItem, localStorage_setItem.
  run. by rewrite Hk.
Qed.

End StoreMore.

(** ** More of AuthGate *)

Section AuthMore.

Lemma field_is_truthy (acc : value) (k s : string) :
  field_is acc k s = true → truthy acc = true.
Proof. unfold field_is. by destruct acc as [| |[]|n|t| |]; simpl; try destruct t. Qed.

Lemma field_is_get_prop (acc : value) (k s : string) :
  truthy acc = true →
  ∃ v, get_prop acc k = Returns v ∧ field_is acc k s = str_strict_eq s v.
Proof.
  unfold field_is. destruct acc; simpl; try done; eauto.
Qed.

(** [login] and [createAccount] without their plumbing. *)
Lemma login_eval (un pw : value) (st : auth) :
  login un pw st =
    if credentials_match un pw (storedAccount st)
    then (Returns logged_in, Auth (VBool true) (storedAccount st))
    else (Returns incorrect, st).
Proof.
  destruct st as [authed acc]. unfold credentials_match, credential.
  unfold login, get_storedAccount, setAuthed. run.
  destruct (is_empty (trim (ToString (js_coalesce un (VStr ""))))); simpl;
    [done|].
  destruct (is_empty (trim (ToString (js_coalesce pw (VStr ""))))); simpl;
    [done|].
  destruct (truthy (js_coalesce acc VNull)) eqn:Eacc.
  - assert (truthy acc = true) as Hacc by (by destruct acc).
    assert (js_coalesce acc VNull = acc) as -> by (by destruct acc).
    destruct (field_is_get_prop acc "username"
                (trim (ToString (js_coalesce un (VStr "")))) Hacc)
      as (name & -> & ->).
    destruct (field_is_get_prop acc "password"
                (trim (ToString (js_coalesce pw (VStr "")))) Hacc)
      as (pass & -> & ->).
    simpl. destruct (str_strict_eq _ name); simpl; [|done].
    by destruct (str_strict_eq _ pass).
  - assert (truthy acc = false) as Hacc by (by destruct acc).
    destruct (field_is acc "username" _) eqn:Ef; [|done].
    apply field_is_truthy in Ef. congruence.
Qed.

Lemma createAccount_eval (un pw : value) (st : auth) :
  createAccount un pw st =
    if is_empty (credential un)
    then (Returns (failure "Username required"), st)
    else if is_empty (credential pw)
    then (Returns (failure "Password required"), st)
    else if field_is (storedAccount st) "username" (credential un)
    then (Returns (failure "Account already exists"), st)
    else (Returns created,
          Auth (VBool true) (account (credential un) (credential pw))).
Proof.
  destruct st as [authed acc]. unfold credential.
  unfold createAccount, get_storedAccount, setStoredAccount, setAuthed. run.
  destruct (is_empty (trim (ToString (js_coalesce un (VStr ""))))); simpl;
    [done|].
  destruct (is_empty (trim (ToString (js_coalesce pw (VStr ""))))); simpl;
    [done|].
  destruct (truthy acc) eqn:Hacc; simpl.
  - destruct (field_is_get_prop acc "username"
                (trim (ToString (js_coalesce un (VStr "")))) Hacc)
      as (v & -> & ->).
    simpl. by destruct (str_strict_eq _ v).
  - destruct (field_is acc "username" _) eqn:Ef; [|done].
    apply field_is_truthy in Ef. congruence.
Qed.

(** X4: [login] never throws and never answers ["Internal auth error"].
    It succeeds exactly when neither field is blank after trimming and the
    stored value has the trimmed fields as its [username] and [password];
    then it opens the session and leaves the account alone.  In every
    other case, a stored value that is no account included, it answers
    ["Incorrect username or password"] and changes nothing. *)
Theorem login_outcomes (un pw : value) (st : auth) :
  (credentials_match un pw (storedAccount st) = true →
   login un pw st = (Returns logged_in, Auth (VBool true) (storedAccount st))) ∧
  (credentials_match un pw (storedAccount st) = false →
   login un pw st = (Returns incorrect, st)).
Proof. rewrite login_eval. split; by intros ->. Qed.

(** X5: [createAccount] never throws and never answers
    ["Failed to create account"]; it has four outcomes, tried in this
    order: a blank username, ["Username required"]; a blank password,
    ["Password required"]; the username of the stored account,
    ["Account already exists"]; and otherwise the account holding the
    trimmed fields is stored and the session opened.  The three refusals
    change nothing. *)
Theorem createAccount_outcomes (un pw : value) (st : auth) :
  (credential un = "" →
   createAccount un pw st = (Returns (failure "Username required"), st)) ∧
  (credential un ≠ "" → credential pw = "" →
   createAccount un pw st = (Returns (failure "Password required"), st)) ∧
  (credential un ≠ "" → credential pw ≠ "" →
   field_is (storedAccount st) "username" (credential un) = true →
   createAccount un pw st = (Returns (failure "Account already exists"), st)) ∧
  (credential un ≠ "" → credential pw ≠ "" →
   field_is (storedAccount st) "username" (credential un) = false →
   createAccount un pw st =
     (Returns created,
      Auth (VBool true) (account (credential un) (credential pw)))).
Proof.
  rewrite createAccount_eval. repeat split.
  - by intros ->.
  - intros Hu ->. by rewrite (is_empty_false _ Hu).
  - intros Hu Hp ->. by rewrite (is_empty_false _ Hu), (is_empty_false _ Hp).
  - intros Hu Hp ->. by rewrite (is_empty_false _ Hu), (is_empty_false _ Hp).
Qed.

Lemma credentials_match_account (un pw : value) :
  credential un ≠ "" → credential pw ≠ "" →
  credentials_match un pw (account (credential un) (credential pw)) = true.
Proof.
  intros Hu Hp. unfold credentials_match, field_is. simpl.
  by rewrite (is_empty_false _ Hu), (is_empty_false _ Hp), !String.eqb_refl.
Qed.

(** X6: an account just created can be used: after a [createAccount] that
    succeeded, and a [logout], [login] with the same arguments succeeds
    and opens the session again; the logout in between has closed it
    without touching the account. *)
Theorem createAccount_logout_login (un pw : value) (st : auth) :
  (createAccount un pw st).1 = Returns created →
  let st1 := (createAccount un pw st).2 in
  let st2 := (logout st1).2 in
  isAuthed st1 = VBool true ∧
  isAuthed st2 = VBool false ∧
  storedAccount st2 = storedAccount st1 ∧
  login un pw st2 = (Returns logged_in, st1).
Proof.
  rewrite createAccount_eval.
  destruct (is_empty (credential un)) eqn:Hu; [done|].
  destruct (is_empty (credential pw)) eqn:Hp; [done|].
  destruct (field_is (storedAccount st) "username" (credential un)); [done|].
  intros _. simpl. repeat split. rewrite login_eval. simpl.
  rewrite credentials_match_account; [done| |];
    intros Heq; by rewrite Heq in *.
Qed.

(** X7: white space around the username or the password does not count:
    [login] and [createAccount] do with their arguments what they do with
    the trimmed texts of them. *)
Theorem auth_arguments_trimmed (un pw : value) (st : auth) :
  login un pw st = login (VStr (credential un)) (VStr (credential pw)) st ∧
  createAccount un pw st
    = createAccount (VStr (credential un)) (VStr (credential pw)) st.
Proof.
  rewrite !login_eval, !createAccount_eval. unfold credentials_match.
  by rewrite !credential_idemp.
Qed.

End AuthMore.

(** ** [AuthModal] *)

Section AuthModalProps.
Import AuthModal.

Lemma failure_not_ok (msg : string) :
  msg ≠ "" →
  truthy (failure msg) = true ∧ not_ok (failure msg) = Returns true ∧
  error_of (failure msg) = Returns (VStr msg) ∧ truthy (VStr msg) = true.
Proof. intros Hmsg. repeat split. by apply truthy_VStr. Qed.

(** X8: a submit of the dialog ends in one of two ways.  Either the
    session is open and the dialog shows no error; or the dialog shows a
    non-empty error and the state of the provider, account and session, is
    what it was.  It never throws, it leaves the inputs alone, and a
    dialog that was not busy is not busy afterwards. *)
Theorem onSubmit_outcome (m : modal) (st : auth) :
  ∃ m' st', onSubmit m st = (Returns m', st') ∧
    mode m' = mode m ∧ un m' = un m ∧ pw m' = pw m ∧ pw2 m' = pw2 m ∧
    (busy m = false → busy m' = false) ∧
    ((err m' = VStr "" ∧ isAuthed st' = VBool true)
     ∨ (∃ msg, err m' = VStr msg ∧ msg ≠ "" ∧ st' = st)).
Proof.
  destruct m as [md u p p2 e b]. unfold onSubmit. cbn [pw mode pw2 un setErr].
  destruct (is_empty p) eqn:Hp.
  { eexists _, _. split; [reflexivity|]. repeat split; [done|].
    right. eexists. by repeat split. }
  destruct (String.eqb md "create" && negb (String.eqb p2 p)) eqn:Hmatch.
  { eexists _, _. split; [reflexivity|]. repeat split; [done|].
    right. eexists. by repeat split. }
  unfold try_catch, mbind, M_bind. cbn [pw mode pw2 un setErr setBusy busy err].
  destruct (String.eqb md "login") eqn:Hmode.
  - rewrite login_eval.
    destruct (credentials_match (VStr u) (VStr p) (storedAccount st)).
    + eexists _, _. split; [reflexivity|]. repeat split. by left.
    + eexists _, _. split; [reflexivity|]. repeat split.
      right. eexists. by repeat split.
  - rewrite createAccount_eval.
    destruct (is_empty (credential (VStr u)));
      [|destruct (is_empty (credential (VStr p)));
        [|destruct (field_is (storedAccount st) "username"
                      (credential (VStr u)))]];
      eexists _, _; (split; [reflexivity|]); repeat split;
      first [ by left | right; eexists; by repeat split ].
Qed.

End AuthModalProps.

(** ** More of CollectionSeeder *)

Section SeederMore.
Context {env : Platform}.

Lemma posts_text_getItem (w : world) :
  ToString (js_or (match storage w !! "posts" with
                   | Some s => VStr s
                   | None => VNull
                   end) (VStr "[]")) = posts_text w.
Proof.
  unfold posts_text, js_or, is_empty.
  destruct (storage w !! "posts") as [s|]; [|done]. simpl.
  by destruct (String.eqb s "").
Qed.

(** [getPosts] by what [JSON.parse] makes of the stored text. *)
Lemma getPosts_eval (w : world) :
  getPosts w =
    match JSON_parse (posts_text w) with
    | Some (VArr ((_ :: _) as items)) =>
        try_catch (mapM normalize_id items) seed_defaults w
    | _ => seed_defaults w
    end.
Proof.
  unfold getPosts, localStorage_getItem, JSON_parse_value.
  unfold try_catch at 1, mbind at 1 2, M_bind at 1 2.
  rewrite posts_text_getItem.
  destruct (JSON_parse (posts_text w)) as [[| | | | |[|x xs]|]|]; try done;
    unfold mret, M_ret; by destruct (seed_defaults w) as [[]].
Qed.

(** The default posts: three records of the Record shape, with the next
    three identifiers of the browser and times a day apart, the first
    now; they are stored under ["posts"]. *)
Lemma seed_defaults_posts (w : world) :
  ∃ d1 d2 d3,
    seed_defaults w =
      (Returns [VObj d1; VObj d2; VObj d3],
       World (<["posts" := JSON_stringify_text (VArr [VObj d1; VObj d2; VObj d3])]>
                (storage w))
             (S (S (S (issued w)))) (clock w)) ∧
    get_field d1 "id" = VStr (randomUUID (issued w)) ∧
    get_field d2 "id" = VStr (randomUUID (S (issued w))) ∧
    get_field d3 "id" = VStr (randomUUID (S (S (issued w)))) ∧
    getTime d1 = clock w ∧
    getTime d2 = clock w - 86400000 ∧
    getTime d3 = clock w - 172800000 ∧
    record_shaped d1 = true ∧ record_shaped d2 = true ∧
    record_shaped d3 = true.
Proof.
  eexists _, _, _. split; [reflexivity|]. repeat split.
Qed.

Lemma normalize_id_has_id (p v : value) (w w' : world) :
  normalize_id p w = (Returns v, w') →
  has_id v ∧ storage w' = storage w ∧ clock w' = clock w.
Proof.
  unfold normalize_id, crypto_randomUUID, has_id, lacks_id. run.
  destruct (get_prop p "id") as [id|]; [|done]. simpl.
  destruct (is_nullish id) eqn:Eid; simpl; intros [= <- <-];
    (split; [eexists; split; [reflexivity|]|done]);
    rewrite get_field_set_field; [done|exact Eid].
Qed.

Lemma normalize_id_throws (p : value) (e : exn) (w w' : world) :
  normalize_id p w = (Throws e, w') → w' = w.
Proof.
  unfold normalize_id, crypto_randomUUID. run.
  destruct (get_prop p "id") as [id|]; simpl; [|by intros [= _ <-]].
  by destruct (is_nullish id).
Qed.

Lemma mapM_normalize_id_frame (items : list value) (w w' : world)
    (r : outcome (list value)) :
  mapM normalize_id items w = (r, w') →
  storage w' = storage w ∧ clock w' = clock w ∧
  (∀ out, r = Returns out → Forall has_id out ∧ length out = length items).
Proof.
  revert w w' r. induction items as [|p items IH]; intros w w' r.
  - intros [= <- <-]. split; [done|]. split; [done|].
    by intros out [= <-].
  - rewrite mapM_cons. unfold mbind at 1, M_bind at 1.
    destruct (normalize_id p w) as [[v|e] w1] eqn:Hp.
    + apply normalize_id_has_id in Hp as (Hv & Hs1 & Hc1).
      unfold mbind at 1, M_bind at 1.
      destruct (mapM normalize_id items w1) as [[vs|e] w2] eqn:Hrest;
        apply IH in Hrest as (Hs2 & Hc2 & Hout); intros [= <- <-];
        (split; [congruence|]); (split; [congruence|]);
        intros out [= <-].
      destruct (Hout vs eq_refl) as [Hvs Hlen].
      split; [by constructor|]. simpl. by rewrite Hlen.
    + apply normalize_id_throws in Hp as ->. intros [= <- <-].
      split; [done|]. split; [done|]. by intros out.
Qed.

(** X9: [getPosts] always returns, and what it returns is never empty and
    never holds a post without an [id]: each element is an object whose
    [id] is neither missing nor [null].  Whatever is stored, it writes
    under ["posts"] only. *)
Theorem getPosts_always_posts (w : world) :
  ∃ out w', getPosts w = (Returns out, w') ∧
    out ≠ [] ∧ Forall has_id out ∧
    (∀ k, k ≠ "posts" → storage w' !! k = storage w !! k).
Proof.
  assert (∀ w0, storage w0 = storage w →
    ∃ out w', seed_defaults w0 = (Returns out, w') ∧
      out ≠ [] ∧ Forall has_id out ∧
      (∀ k, k ≠ "posts" → storage w' !! k = storage w !! k)) as Hseed.
  { intros w0 Hw0. destruct (seed_defaults_posts w0)
      as (d1 & d2 & d3 & -> & Hi1 & Hi2 & Hi3 & _).
    eexists _, _. split; [done|]. split; [done|]. split.
    - repeat constructor; eexists; (split; [done|]); unfold lacks_id;
        by rewrite ?Hi1, ?Hi2, ?Hi3.
    - intros k Hk. simpl. by rewrite lookup_insert_ne, Hw0. }
  rewrite getPosts_eval.
  destruct (JSON_parse (posts_text w)) as [[| | | | |[|x xs]|]|];
    try (by apply Hseed).
  unfold try_catch.
  destruct (mapM normalize_id (x :: xs) w) as [[out|e] w1] eqn:Hmap;
    apply mapM_normalize_id_frame in Hmap as (Hs & _ & Hout).
  - destruct (Hout out eq_refl) as [Hids Hlen].
    exists out, w1. split; [done|]. split; [by destruct out|].
    split; [done|]. intros k _. by rewrite Hs.
  - by apply Hseed.
Qed.

(** X10: where nothing usable is stored (no entry, an empty one, a text
    [JSON.parse] rejects, or one that is not a non-empty array), [getPosts]
    seeds: it returns the three default posts, which carry the next three
    identifiers of the browser and the times now, a day ago and two days
    ago, and are of the Record shape, and it stores them under ["posts"]. *)
Theorem getPosts_seeds (w : world) :
  (∀ x xs, JSON_parse (posts_text w) ≠ Some (VArr (x :: xs))) →
  ∃ d1 d2 d3,
    getPosts w =
      (Returns [VObj d1; VObj d2; VObj d3],
       World (<["posts" := JSON_stringify_text (VArr [VObj d1; VObj d2; VObj d3])]>
                (storage w))
             (S (S (S (issued w)))) (clock w)) ∧
    get_field d1 "id" = VStr (randomUUID (issued w)) ∧
    get_field d2 "id" = VStr (randomUUID (S (issued w))) ∧
    get_field d3 "id" = VStr (randomUUID (S (S (issued w)))) ∧
    getTime d1 = clock w ∧
    getTime d2 = clock w - 86400000 ∧
    getTime d3 = clock w - 172800000 ∧
    record_shaped d1 = true ∧ record_shaped d2 = true ∧
    record_shaped d3 = true.
Proof.
  intros Hunusable.
  assert (getPosts w = seed_defaults w) as ->.
  { rewrite getPosts_eval.
    destruct (JSON_parse (posts_text w)) as [[| | | | |[|x xs]|]|] eqn:Hparse;
      try done. by destruct (Hunusable x xs). }
  apply seed_defaults_posts.
Qed.

Lemma mapM_normalize_id_null (pre : list object) (post : list value) (w : world) :
  mapM normalize_id ((VObj <$> pre) ++ VNull :: post) w =
    (Throws TypeError,
     World (storage w) (issued w + missing_ids pre) (clock w)).
Proof.
  revert w. induction pre as [|o pre IH]; intros w.
  - destruct w. unfold missing_ids. simpl. by rewrite Nat.add_0_r.
  - rewrite fmap_cons, <- app_comm_cons, mapM_cons.
    unfold mbind at 1, M_bind at 1. rewrite normalize_id_object.
    unfold missing_ids. simpl.
    destruct (lacks_id o); unfold mbind at 1, M_bind at 1; rewrite IH; simpl.
    + by rewrite Nat.add_succ_r.
    + done.
Qed.

(** X11: one [null] among the stored posts costs the whole collection:
    the normalisation throws on it, the [catch] seeds, and [getPosts]
    returns the default posts and stores them over the collection; the
    identifiers taken for the records before the [null] are spent. *)
Theorem getPosts_null_entry (w : world) (pre : list object) (post : list value) :
  JSON_parse (posts_text w) = Some (VArr ((VObj <$> pre) ++ VNull :: post)) →
  getPosts w =
    seed_defaults (World (storage w) (issued w + missing_ids pre) (clock w)) ∧
  ∃ d1 d2 d3,
    (getPosts w).1 = Returns [VObj d1; VObj d2; VObj d3] ∧
    storage (getPosts w).2 !! "posts"
      = Some (JSON_stringify_text (VArr [VObj d1; VObj d2; VObj d3])).
Proof.
  intros Hparse.
  assert (getPosts w =
    seed_defaults (World (storage w) (issued w + missing_ids pre) (clock w)))
    as Heq.
  { rewrite getPosts_eval, Hparse.
    destruct ((VObj <$> pre) ++ VNull :: post) as [|x xs] eqn:Hitems.
    { by destruct pre. }
    rewrite <- Hitems. unfold try_catch. by rewrite mapM_normalize_id_null. }
  split; [done|]. rewrite Heq.
  destruct (seed_defaults_posts
              (World (storage w) (issued w + missing_ids pre) (clock w)))
    as (d1 & d2 & d3 & -> & _).
  exists d1, d2, d3. split; [done|]. simpl. apply lookup_insert_eq.
Qed.

Lemma normalized_with_ids (n : nat) (posts : list object) :
  Forall (λ o, lacks_id o = false) posts →
  normalized n posts = posts ∧ missing_ids posts = 0%nat.
Proof.
  unfold missing_ids. induction 1 as [|o posts Ho _ [IH1 IH2]]; [done|].
  simpl. rewrite Ho. simpl. by rewrite IH1, IH2.
Qed.

(** X12: a collection saved is the collection loaded.  For a non-empty
    list of records that all have an [id], whose serialisation
    [JSON.parse] reads back, [getPosts] after [savePosts] returns the same
    records in the same order, and changes nothing: no identifier is
    taken, nothing is written. *)
Theorem savePosts_then_getPosts (w : world) (posts : list object) (s : string) :
  posts ≠ [] →
  Forall (λ o, lacks_id o = false) posts →
  JSON_stringify (VArr (VObj <$> posts)) = Some s → s ≠ "" →
  JSON_parse s = Some (VArr (VObj <$> posts)) →
  getPosts (savePosts (VArr (VObj <$> posts)) w).2 =
    (Returns (VObj <$> posts), (savePosts (VArr (VObj <$> posts)) w).2).
Proof.
  intros Hne Hids Hs Hs_ne Hparse.
  assert ((savePosts (VArr (VObj <$> posts)) w).2 =
            World (<["posts" := s]> (storage w)) (issued w) (clock w)) as ->.
  { unfold savePosts, JSON_stringify_text. run. rewrite Hs.
    by destruct posts. }
  rewrite (getPosts_stored _ s posts); [|apply lookup_insert_eq|done..].
  destruct (normalized_with_ids (issued w) posts Hids) as [Hn Hm].
  simpl. rewrite Hn, Hm. by rewrite Nat.add_0_r.
Qed.

(** X13: deleting the last post brings the defaults back.  [savePosts] of
    the empty array removes the entry, and the next [getPosts], given
    that [JSON.parse] makes no non-empty array of the text [[]], seeds
    the default posts again. *)
Theorem savePosts_empty_then_getPosts (w : world) :
  (∀ x xs, JSON_parse "[]" ≠ Some (VArr (x :: xs))) →
  storage (savePosts (VArr []) w).2 !! "posts" = None ∧
  getPosts (savePosts (VArr []) w).2
    = seed_defaults (savePosts (VArr []) w).2 ∧
  ∃ d1 d2 d3,
    (getPosts (savePosts (VArr []) w).2).1
      = Returns [VObj d1; VObj d2; VObj d3].
Proof.
  intros Hempty.
  assert (storage (savePosts (VArr []) w).2 !! "posts" = None) as Hnone.
  { unfold savePosts. run. apply lookup_delete_eq. }
  assert (getPosts (savePosts (VArr []) w).2
            = seed_defaults (savePosts (VArr []) w).2) as Heq.
  { rewrite getPosts_eval. unfold posts_text. rewrite Hnone.
    destruct (JSON_parse "[]") as [[| | | | |[|x xs]|]|] eqn:Hparse;
      try done. by destruct (Hempty x xs). }
  split; [done|]. split; [done|]. rewrite Heq.
  destruct (seed_defaults_posts (savePosts (VArr []) w).2)
    as (d1 & d2 & d3 & -> & _). by exists d1, d2, d3.
Qed.

End SeederMore.

(** ** More of Blog *)

Lemma filterM_filter {A} (f : A → outcome bool) (g : A → bool) (l out : list A) :
  filterM f l = Returns out →
  filterM f (List.filter g l) = Returns (List.filter g out).
Proof.
  revert out. induction l as [|x l IH]; intros out; simpl.
  - by intros [= <-].
  - run. destruct (f x) as [keep|] eqn:Ex; [|done].
    destruct (filterM f l) as [kept|]; [|done]. intros [= <-].
    specialize (IH kept eq_refl).
    destruct (g x) eqn:Eg; simpl; run; rewrite ?Ex, IH;
      destruct keep; simpl; by rewrite ?Eg.
Qed.

Lemma filter_filter_comm {A} (g g' : A → bool) (l : list A) :
  List.filter g (List.filter g' l) = List.filter g' (List.filter g l).
Proof.
  induction l as [|x l IH]; [done|]. simpl.
  destruct (g x) eqn:Eg, (g' x) eqn:Eg'; simpl; by rewrite ?Eg, ?Eg', IH.
Qed.

Lemma Forall_filter_bool {A} (P : A → Prop) (g : A → bool) (l : list A) :
  Forall P l → Forall P (List.filter g l).
Proof.
  induction 1 as [|x l Hx _ IH]; [constructor|]. simpl.
  destruct (g x); [by constructor|done].
Qed.

Section SortFilter.
Context {A : Type} (cmp : A → A → Z) (key : A → Z).
Context (Hcmp : ∀ a b, (cmp a b <= 0 ↔ key a <= key b)%Z).
Context (g : A → bool).

Lemma sort_insert_first (x : A) (l : list A) :
  Forall (λ y, (key x <= key y)%Z) l → sort_insert cmp x l = x :: l.
Proof.
  destruct 1 as [|y l Hy _]; [done|]. simpl.
  apply Hcmp in Hy. by destruct (Z.leb_spec (cmp x y) 0); [|lia].
Qed.

Lemma sort_insert_filter (x : A) (l : list A) :
  StronglySorted (λ a b, (key a <= key b)%Z) l →
  List.filter g (sort_insert cmp x l) =
    if g x then sort_insert cmp x (List.filter g l) else List.filter g l.
Proof.
  induction 1 as [|y l Hl IH Hy]; [simpl; by destruct (g x)|].
  cbn [sort_insert]. destruct (Z.leb_spec (cmp x y) 0) as [Hle|Hgt].
  - apply Hcmp in Hle.
    change (List.filter g (x :: y :: l))
      with (if g x then x :: List.filter g (y :: l)
            else List.filter g (y :: l)).
    destruct (g x); [|done].
    rewrite sort_insert_first; [done|]. apply Forall_filter_bool.
    constructor; [done|]. eapply Forall_impl; [exact Hy|].
    simpl. intros z Hz. lia.
  - cbn [List.filter]. rewrite IH.
    destruct (g x), (g y); try done. cbn [sort_insert].
    by destruct (Z.leb_spec (cmp x y) 0); [lia|].
Qed.

(** Sorting and filtering commute. *)
Lemma Array_sort_filter (l : list A) :
  Array_sort cmp (List.filter g l) = List.filter g (Array_sort cmp l).
Proof.
  induction l as [|x l IH]; [done|]. cbn [Array_sort List.filter].
  rewrite (sort_insert_filter x (Array_sort cmp l))
    by (by apply Array_sort_sorted).
  destruct (g x); [|done]. cbn [Array_sort]. by rewrite IH.
Qed.

End SortFilter.

Lemma elem_of_existsb_eqb (x : string) (l : list string) :
  existsb (String.eqb x) l = true ↔ x ∈ l.
Proof.
  rewrite existsb_exists. split.
  - intros (y & Hy & Heq). apply String.eqb_eq in Heq as <-.
    by apply list_elem_of_In.
  - intros Hx. exists x. split; [by apply list_elem_of_In|].
    apply String.eqb_refl.
Qed.

Lemma elem_of_filter_neq (x tag : string) (l : list string) :
  x ∈ List.filter (λ y, negb (String.eqb y tag)) l ↔ x ∈ l ∧ x ≠ tag.
Proof.
  rewrite elem_of_filter_bool, negb_true_iff.
  destruct (String.eqb_spec x tag); split; intros [? ?]; by split.
Qed.

Lemma SameValueZero_eq (a b : value) : SameValueZero a b = true → a = b.
Proof.
  destruct a, b; simpl; try done.
  - by intros ->%Bool.eqb_prop.
  - by intros ->%Z.eqb_eq.
  - by intros ->%String.eqb_eq.
Qed.

Lemma SameValueZero_sym (a b : value) : SameValueZero a b = SameValueZero b a.
Proof.
  destruct a, b; simpl; try done.
  - by destruct b, b0.
  - apply Z.eqb_sym.
  - apply String.eqb_sym.
Qed.

Lemma SameValueZero_VStr (s : string) : SameValueZero (VStr s) (VStr s) = true.
Proof. apply String.eqb_refl. Qed.

Lemma elem_of_fold_Set_add (l acc : list value) (v : value) :
  v ∈ fold_left Set_add l acc ↔ v ∈ acc ∨ v ∈ l.
Proof.
  revert acc. induction l as [|x l IH]; intros acc; simpl.
  - rewrite elem_of_nil. tauto.
  - rewrite IH, elem_of_cons. unfold Set_add.
    destruct (existsb (SameValueZero x) acc) eqn:Ex.
    + apply existsb_exists in Ex as (y & Hy & Heq).
      apply SameValueZero_eq in Heq as <-. apply list_elem_of_In in Hy.
      split; [tauto|]. intros [?|[->|?]]; tauto.
    + rewrite elem_of_app, list_elem_of_singleton. tauto.
Qed.

Lemma no_repeats_snoc (acc : list value) (x : value) :
  no_repeats acc → existsb (SameValueZero x) acc = false →
  no_repeats (acc ++ [x]).
Proof.
  intros Hacc Hx i j a b Hi Hj Hab.
  assert (∀ k c, acc !! k = Some c → SameValueZero x c = false) as Hnot.
  { intros k c Hk. destruct (SameValueZero x c) eqn:E; [|done].
    rewrite <- Hx. symmetry. apply existsb_exists. exists c.
    split; [|done]. by eapply list_elem_of_In, list_elem_of_lookup_2. }
  apply lookup_app_Some in Hi as [Hi|[Hi1 Hi2]];
    apply lookup_app_Some in Hj as [Hj|[Hj1 Hj2]].
  - by apply (Hacc i j a b).
  - apply list_lookup_singleton_Some in Hj2 as [_ <-].
    rewrite SameValueZero_sym, (Hnot i a Hi) in Hab. done.
  - apply list_lookup_singleton_Some in Hi2 as [_ <-].
    rewrite (Hnot j b Hj) in Hab. done.
  - apply list_lookup_singleton_Some in Hi2 as [? _].
    apply list_lookup_singleton_Some in Hj2 as [? _]. lia.
Qed.

Lemma no_repeats_fold_Set_add (l acc : list value) :
  no_repeats acc → no_repeats (fold_left Set_add l acc).
Proof.
  revert acc. induction l as [|x l IH]; intros acc Hacc; [done|].
  simpl. apply IH. unfold Set_add.
  destruct (existsb (SameValueZero x) acc) eqn:Ex; [done|].
  by apply no_repeats_snoc.
Qed.

Lemma fold_Set_add_no_repeats (l acc : list value) :
  no_repeats (acc ++ l) → fold_left Set_add l acc = acc ++ l.
Proof.
  revert acc. induction l as [|x l IH]; intros acc Hall; simpl.
  - by rewrite app_nil_r.
  - assert (existsb (SameValueZero x) acc = false) as Hx.
    { destruct (existsb (SameValueZero x) acc) eqn:Ex; [|done].
      apply existsb_exists in Ex as (y & Hy & Heq).
      apply list_elem_of_In, list_elem_of_lookup in Hy as [i Hi].
      pose proof (lookup_lt_Some _ _ _ Hi) as Hlt.
      assert (length acc = i); [|lia].
      apply (Hall (length acc) i x y); [|by apply lookup_app_l_Some|done].
      by rewrite list_lookup_middle. }
    unfold Set_add. rewrite Hx, IH; rewrite <- app_assoc; done.
Qed.

Section BlogMore.
Context {env : Platform}.

(** The comparator of [filtered] orders by a key. *)
Lemma by_time_key (h : heap) (sort : string) :
  ∃ key : loc → Z, ∀ a b, (by_time h sort a b <= 0 ↔ key a <= key b)%Z.
Proof.
  unfold by_time. destruct (String.eqb sort "newest").
  - exists (λ a, - getTime (h a))%Z. intros a b. lia.
  - exists (λ a, getTime (h a)). intros a b. lia.
Qed.

(** X14: deleting and deriving commute.  If [filtered] returns a list for
    the posts, it returns for the posts after [deletePost(id)] that list
    without the posts whose [id] is [id], the others in the order they
    had; so a deletion takes from the list shown exactly the posts of that
    identifier. *)
Theorem filtered_after_deletePost (h : heap) (posts out : list loc)
    (search : string) (selectedTags : list string) (sort id : string) :
  filtered h posts search selectedTags sort = Returns out →
  filtered h (deletePost h id posts) search selectedTags sort
    = Returns (deletePost h id out) ∧
  sublist (deletePost h id out) out ∧
  (∀ l, l ∈ deletePost h id out ↔ l ∈ out ∧ get_field (h l) "id" ≠ VStr id).
Proof.
  intros Hout. split; [|split].
  - rewrite filtered_stages in *. unfold search_stage in *.
    destruct (by_time_key h sort) as [key Hkey].
    destruct (is_empty (toLowerCase (trim search))).
    + revert Hout. run. intros [= <-]. unfold deletePost.
      by rewrite <- (Array_sort_filter _ key Hkey), filter_filter_comm.
    + destruct (filterM _ posts) as [kept|] eqn:Hkept; [|done].
      revert Hout. run. intros [= <-]. unfold deletePost.
      rewrite (filterM_filter _ _ _ _ Hkept). run.
      by rewrite <- (Array_sort_filter _ key Hkey), filter_filter_comm.
  - apply filter_sublist.
  - intros l. unfold deletePost.
    rewrite elem_of_filter_bool, negb_true_iff.
    split; intros [Hl Hid]; (split; [done|]).
    + intros Heq. by rewrite Heq, (proj2 (str_strict_eq_true id _)) in Hid.
    + by apply str_strict_eq_false.
Qed.

(** X15: [onToggleTag] flips the tag it is given and no other: the tag is
    selected afterwards exactly if it was not before, every other tag is
    selected exactly if it was, and a selection without repetition stays
    without repetition. *)
Theorem onToggleTag_flips (tag : string) (t : list string) :
  (tag ∈ onToggleTag tag t ↔ tag ∉ t) ∧
  (∀ x, x ≠ tag → x ∈ onToggleTag tag t ↔ x ∈ t) ∧
  (NoDup t → NoDup (onToggleTag tag t)).
Proof.
  unfold onToggleTag.
  destruct (existsb (String.eqb tag) t) eqn:Ein.
  - apply elem_of_existsb_eqb in Ein. split; [|split].
    + rewrite elem_of_filter_neq. tauto.
    + intros x Hx. rewrite elem_of_filter_neq. tauto.
    + intros Ht. eapply sublist_NoDup; [done|apply filter_sublist].
  - assert (tag ∉ t) as Hnot.
    { intros Hin. apply elem_of_existsb_eqb in Hin. congruence. }
    split; [|split].
    + rewrite elem_of_app, list_elem_of_singleton. tauto.
    + intros x Hx. rewrite elem_of_app, list_elem_of_singleton. tauto.
    + intros Ht. apply NoDup_app. split; [done|]. split.
      * intros x Hx ->%list_elem_of_singleton. done.
      * apply NoDup_singleton.
Qed.

Lemma has_selected_tags_ext (s1 s2 : list string) (p : object) :
  (∀ x, x ∈ s1 ↔ x ∈ s2) →
  has_selected_tags s1 p = has_selected_tags s2 p.
Proof.
  intros Hsame. apply eq_true_iff_eq. rewrite !has_selected_tags_spec.
  unfold tags_superset. split; intros Hall t Ht; apply Hall, Hsame, Ht.
Qed.

(** The derived list depends on the selected tags as a set. *)
Lemma filtered_tags_ext (h : heap) (posts : list loc) (search : string)
    (s1 s2 : list string) (sort : string) :
  (∀ x, x ∈ s1 ↔ x ∈ s2) →
  filtered h posts search s1 sort = filtered h posts search s2 sort.
Proof.
  intros Hsame. rewrite !filtered_stages.
  destruct (search_stage h posts search) as [kept|]; [|done]. run.
  do 2 f_equal. clear -Hsame. induction kept as [|l kept IH]; [done|].
  simpl. by rewrite (has_selected_tags_ext s1 s2 _ Hsame), IH.
Qed.

(** X16: toggling a tag twice leaves the list shown as it was, whatever
    the posts, the search text and the order: the selection may come back
    in another order, the derived list does not notice. *)
Theorem filtered_toggle_twice (h : heap) (posts : list loc) (search : string)
    (t : list string) (sort tag : string) :
  filtered h posts search (onToggleTag tag (onToggleTag tag t)) sort
    = filtered h posts search t sort ∧
  (tag ∉ t → onToggleTag tag (onToggleTag tag t) = t).
Proof.
  split.
  - apply filtered_tags_ext. intros x.
    destruct (onToggleTag_flips tag (onToggleTag tag t)) as (H1 & H2 & _).
    destruct (onToggleTag_flips tag t) as (H3 & H4 & _).
    destruct (String.eqb_spec x tag) as [->|Hx].
    + rewrite H1, H3. destruct (decide (tag ∈ t)); tauto.
    + by rewrite (H2 x Hx), (H4 x Hx).
  - intros Hnot. unfold onToggleTag at 2.
    assert (existsb (String.eqb tag) t = false) as ->.
    { destruct (existsb (String.eqb tag) t) eqn:E; [|done].
      by apply elem_of_existsb_eqb in E. }
    unfold onToggleTag.
    assert (existsb (String.eqb tag) (t ++ [tag]) = true) as ->.
    { apply elem_of_existsb_eqb, elem_of_app. right. by left. }
    rewrite List.filter_app. simpl. rewrite String.eqb_refl. simpl.
    rewrite app_nil_r. clear -Hnot. induction t as [|x t IH]; [done|].
    simpl. apply not_elem_of_cons in Hnot as [Hx Ht].
    destruct (String.eqb_spec x tag) as [->|_]; [done|]. simpl.
    by rewrite IH.
Qed.

(** X17: the order and the repetition of the selected tags do not matter:
    two selections with the same tags derive the same list. *)
Theorem filtered_selection_as_set (h : heap) (posts : list loc)
    (search : string) (s1 s2 : list string) (sort : string) :
  (∀ x, x ∈ s1 ↔ x ∈ s2) →
  filtered h posts search s1 sort = filtered h posts search s2 sort.
Proof.
  intros Hsame. rewrite !filtered_stages.
  destruct (search_stage h posts search) as [kept|]; [|done]. run.
  do 2 f_equal. apply filter_ext. intros l.
  apply eq_true_iff_eq. rewrite !has_selected_tags_spec.
  unfold tags_superset. split; intros Hall t Ht; apply Hall, Hsame, Ht.
Qed.

(** X18: [allTags] holds the tags of the posts, each once: a value is in
    it exactly if it is a tag of some post, and no two of its entries are
    the same value; the tag chips built from it, which deduplicate again,
    are its entries in its order. *)
Theorem allTags_each_once (h : heap) (posts : list loc) :
  (∀ v, v ∈ allTags h posts ↔ ∃ l, l ∈ posts ∧ v ∈ tags_of (h l)) ∧
  no_repeats (allTags h posts) ∧
  Array_from_Set (allTags h posts) = allTags h posts.
Proof.
  unfold allTags, Array_from_Set. split; [|split].
  - intros v. rewrite elem_of_fold_Set_add, elem_of_nil.
    rewrite list_elem_of_In, in_flat_map. split.
    + intros [[]|(l & Hl & Hv)]. exists l.
      by rewrite !list_elem_of_In.
    + intros (l & Hl & Hv). right. exists l. by rewrite <- !list_elem_of_In.
  - apply no_repeats_fold_Set_add. by intros i j a b Hi.
  - apply (fold_Set_add_no_repeats _ []). simpl.
    apply no_repeats_fold_Set_add. by intros i j a b Hi.
Qed.

(** X19: every chip finds a post: with no search text, selecting one
    string of [allTags] alone derives a list that is not empty. *)
Theorem allTags_tag_finds_post (h : heap) (posts : list loc)
    (search sort t : string) :
  toLowerCase (trim search) = "" →
  VStr t ∈ allTags h posts →
  ∃ out, filtered h posts search [t] sort = Returns out ∧ out ≠ [].
Proof.
  intros Hneedle Ht.
  assert (∃ l, l ∈ posts ∧ VStr t ∈ tags_of (h l)) as (l & Hl & Htag).
  { unfold allTags, Array_from_Set in Ht.
    apply elem_of_fold_Set_add in Ht as [Ht|Ht]; [by apply elem_of_nil in Ht|].
    apply list_elem_of_In, in_flat_map in Ht as (l & Hl & Hv).
    exists l. by rewrite !list_elem_of_In. }
  destruct (filtered_returns h posts search [t] sort) as [out Hout];
    [by left|].
  exists out. split; [done|]. intros ->.
  assert (l ∈ @nil loc) as Hnil; [|by apply elem_of_nil in Hnil].
  apply (elem_of_filtered h posts posts [] search [t] sort l); [|done|].
  - unfold search_stage. by rewrite Hneedle.
  - split; [done|]. by intros x ->%list_elem_of_singleton.
Qed.


End BlogMore.

(** ** [BlogPostForm] *)

Section FormProps.
Context {env : Platform}.
Import BlogPostForm.

Lemma tag_list_clean (tags : string) :
  Forall (λ t, t ≠ "" ∧ trim t = t) (tag_list tags).
Proof.
  unfold tag_list. apply Forall_forall. intros t Ht.
  apply elem_of_filter_bool in Ht as [Ht Hne].
  apply list_elem_of_In, in_map_iff in Ht as (u & <- & _). split.
  - intros Heq. unfold is_empty in Hne. by rewrite Heq in Hne.
  - apply trim_idemp.
Qed.

Lemma forallb_is_string_fmap (l : list string) :
  forallb is_string (VStr <$> l) = true.
Proof. induction l as [|x l IH]; [done|]. simpl. exact IH. Qed.

(** X21: [submit] with a title that is blank does nothing: no post, no
    identifier taken, the inputs as they were.  Otherwise it hands over
    one post and empties the inputs; the post is of the Record shape, so
    the search never throws on it; it has the next identifier of the
    browser as its [id], the time of the clock as its sort key, the
    trimmed title and body, and as tags the comma-separated entries of the
    tag input, each trimmed and none of them empty. *)
Theorem submit_post (f : form) (w : world) :
  (trim (title f) = "" → submit f w = (Returns (None, f), w)) ∧
  (trim (title f) ≠ "" →
   ∃ p, submit f w =
          (Returns (Some (VObj p), Form "" "" "" ""),
           World (storage w) (S (issued w)) (clock w)) ∧
     record_shaped p = true ∧
     get_field p "id" = VStr (randomUUID (issued w)) ∧
     getTime p = clock w ∧
     get_field p "title" = VStr (trim (title f)) ∧
     get_field p "body" = VStr (trim (body f)) ∧
     tags_of p = VStr <$> tag_list (tags f) ∧
     Forall (λ t, t ≠ "" ∧ trim t = t) (tag_list (tags f))).
Proof.
  unfold submit, crypto_randomUUID, Date_now. split.
  - by intros ->.
  - intros Htitle. rewrite (is_empty_false _ Htitle). run.
    eexists. split; [reflexivity|]. repeat split.
    + unfold record_shaped, tags_of. simpl. apply forallb_is_string_fmap.
    + apply tag_list_clean.
Qed.

End FormProps.

(** ** [App] *)

Section AppProps.

(** X22: the tab chosen is the tab restored: after [setActive(tab)] with
    a tab that is not the empty string, the next first render of [App]
    ends on that tab and leaves the store as the choice left it; when no
    tab is stored, or the empty string, it ends on ["Education"] and
    stores that. *)
Theorem App_tab_restored (tab : string) (w : world) :
  (tab ≠ "" →
   App.mount (App.setActive tab w).2
     = (Returns tab, (App.setActive tab w).2)) ∧
  (storage w !! "activeTab" = None ∨ storage w !! "activeTab" = Some "" →
   App.mount w =
     (Returns "Education",
      World (<["activeTab" := "Education"]> (storage w)) (issued w) (clock w))).
Proof.
  unfold App.mount, App.setActive, localStorage_getItem, localStorage_setItem.
  run. split.
  - intros Htab. rewrite lookup_insert_eq, (truthy_VStr tab Htab). simpl.
    by rewrite !insert_insert_eq.
  - by intros [->| ->].
Qed.

End AppProps.

(** ** The provider across a reload *)

Section Reload.
Context {env : Platform}.

(** X23: the session and the account survive a reload.  Once the effects
    of the provider have stored its state, and [JSON.parse] reads both
    values back from their texts, the next first render of the provider
    starts in that very state, and stores what was stored. *)
Theorem AuthProvider_reload (st : auth) (w : world) (s1 s2 : string) :
  JSON_stringify (isAuthed st) = Some s1 → s1 ≠ "" →
  JSON_parse s1 = Some (isAuthed st) →
  JSON_stringify (storedAccount st) = Some s2 → s2 ≠ "" →
  JSON_parse s2 = Some (storedAccount st) →
  AuthProvider_mount (AuthProvider_effects st w).2
    = (Returns st, (AuthProvider_effects st w).2).
Proof.
  intros Hs1 Hne1 Hp1 Hs2 Hne2 Hp2. destruct st as [a acc]. simpl in *.
  unfold AuthProvider_mount, AuthProvider_effects, useLocalStorage,
    useLocalStorage_init, useLocalStorage_effect, localStorage_getItem,
    localStorage_setItem, JSON_stringify_text, JSON_parse_value.
  run. rewrite Hs1, Hs2.
  rewrite lookup_insert_ne, lookup_insert_eq by done.
  rewrite (truthy_VStr s1 Hne1). simpl. rewrite Hp1. simpl. rewrite Hs1.
  rewrite lookup_insert_ne, lookup_insert_eq by done.
  rewrite (truthy_VStr s2 Hne2). simpl. rewrite Hp2. simpl. rewrite Hs2.
  do 2 f_equal.
  rewrite (insert_id (<["auth:account":=s2]> (<["isAuthed":=s1]> (storage w)))
             "isAuthed" s1)
    by (by rewrite lookup_insert_ne, lookup_insert_eq).
  apply insert_insert_eq.
Qed.

End Reload.

(** ** [Blog] across a reload *)

Section BlogReload.
Context {env : Platform}.

Lemma has_id_objects (out : list value) :
  Forall has_id out →
  ∃ os, out = VObj <$> os ∧ Forall (λ o, lacks_id o = false) os.
Proof.
  induction 1 as [|v out (o & -> & Ho) _ (os & -> & Hos)].
  - by exists [].
  - exists (o :: os). split; [done|]. by constructor.
Qed.

(** X24: the first render of [Blog] makes the collection permanent.  The
    posts it shows are the posts it stores, identifiers included; if
    [JSON.parse] reads them back from their text, a reload shows the same
    posts with the same identifiers and leaves the store as it is: no
    record is given a second identifier. *)
Theorem Blog_mount_settles (w w1 : world) (out : list value) (s : string) :
  Blog_mount w = (Returns out, w1) →
  JSON_stringify (VArr out) = Some s → s ≠ "" →
  JSON_parse s = Some (VArr out) →
  storage w1 !! "posts" = Some s ∧
  Blog_mount w1 = (Returns out, w1).
Proof.
  intros Hmount Hs Hne Hparse.
  assert (out ≠ [] ∧ Forall has_id out ∧
          ∃ w', w1 = World (<["posts" := s]> (storage w')) (issued w') (clock w'))
    as (Hout & Hids & w' & ->).
  { revert Hmount. unfold Blog_mount. unfold mbind at 1, M_bind at 1.
    rewrite getPosts_eval.
    assert (∀ w0 r, seed_defaults w0 = r → ∃ p ps w2,
              r = (Returns (p :: ps), w2) ∧ Forall has_id (p :: ps)) as Hseed.
    { intros w0 r <-. destruct (seed_defaults_posts w0)
        as (d1 & d2 & d3 & -> & Hi1 & Hi2 & Hi3 & _).
      eexists _, _, _. split; [done|].
      repeat constructor; eexists; (split; [done|]); unfold lacks_id;
        by rewrite ?Hi1, ?Hi2, ?Hi3. }
    assert (∃ p ps w2,
      match JSON_parse (posts_text w) with
      | Some (VArr ((_ :: _) as items)) =>
          try_catch (mapM normalize_id items) seed_defaults w
      | _ => seed_defaults w
      end = (Returns (p :: ps), w2) ∧ Forall has_id (p :: ps))
      as (p & ps & w2 & -> & Hps).
    { destruct (JSON_parse (posts_text w)) as [[| | | | |[|x xs]|]|];
        try (by eapply Hseed).
      unfold try_catch.
      destruct (mapM normalize_id (x :: xs) w) as [[vs|e] w2] eqn:Hmap;
        [|by eapply Hseed].
      apply mapM_normalize_id_frame in Hmap as (_ & _ & Hvs).
      destruct (Hvs vs eq_refl) as [Hids Hlen].
      destruct vs as [|p ps]; [done|]. by exists p, ps, w2. }
    unfold savePosts, JSON_stringify_text. run. intros [= <- <-].
    rewrite Hs. split; [done|]. split; [done|]. by exists w2. }
  split; [apply lookup_insert_eq|].
  destruct (has_id_objects out Hids) as (os & -> & Hos).
  unfold Blog_mount. unfold mbind at 1, M_bind at 1.
  rewrite (getPosts_stored _ s os);
    [|apply lookup_insert_eq|done|done|by destruct os].
  cbn [storage issued clock].
  destruct (normalized_with_ids (issued w') os Hos) as [-> ->].
  unfold savePosts, JSON_stringify_text. run. rewrite Hs.
  destruct os as [|o os]; [done|]. simpl.
  by rewrite Nat.add_0_r, insert_insert_eq.
Qed.

End BlogReload.

(** ** The further properties on the reference browser *)

Section MoreOnReference.
#[local] Existing Instance Reference.browser.

Lemma useLocalStorage_write_then_read_witness :
  storage (useLocalStorage_setValue "profile:name" (VStr "Tom") fresh_world).2
    !! "profile:name" = Some (Reference.quote "Tom") ∧
  useLocalStorage "profile:name" (VStr "Anonymous")
      (useLocalStorage_setValue "profile:name" (VStr "Tom") fresh_world).2
    = (Returns (VStr "Tom"),
       (useLocalStorage_setValue "profile:name" (VStr "Tom") fresh_world).2).
Proof.
  apply (useLocalStorage_write_then_read "profile:name"
           (Reference.quote "Tom") (VStr "Tom") (VStr "Anonymous") fresh_world);
    [reflexivity | discriminate | reflexivity].
Defined.

Lemma useLocalStorage_other_keys_witness :
  storage (useLocalStorage "profile:name" (VStr "Anonymous") corrupt_world).2
    !! "isAuthed" = storage corrupt_world !! "isAuthed" ∧
  storage (useLocalStorage_setValue "profile:name" (VStr "Tom") corrupt_world).2
    !! "isAuthed" = storage corrupt_world !! "isAuthed" ∧
  issued (useLocalStorage "profile:name" (VStr "Anonymous") corrupt_world).2
    = issued corrupt_world ∧
  clock (useLocalStorage "profile:name" (VStr "Anonymous") corrupt_world).2
    = clock corrupt_world.
Proof.
  apply (useLocalStorage_other_keys "profile:name" "isAuthed"
           (VStr "Anonymous") (VStr "Tom") corrupt_world).
  discriminate.
Defined.

Lemma useLocalStorage_empty_entry_witness :
  useLocalStorage "profile:name" (VStr "Anonymous") blank_world =
    (Returns (VStr "Anonymous"),
     World (<["profile:name" := JSON_stringify_text (VStr "Anonymous")]>
              (storage blank_world))
           (issued blank_world) (clock blank_world)).
Proof.
  apply (useLocalStorage_empty_entry "profile:name" (VStr "Anonymous")
           blank_world).
  reflexivity.
Defined.

Lemma login_outcomes_witness :
  login (VStr " alice ") (VStr "secret") (Auth (VBool false) alice)
    = (Returns logged_in, Auth (VBool true) alice) ∧
  login (VStr "alice") (VStr "   ") (Auth (VBool false) alice)
    = (Returns incorrect, Auth (VBool false) alice) ∧
  login (VStr "alice") (VStr "secret") (Auth (VBool false) (VNum 5))
    = (Returns incorrect, Auth (VBool false) (VNum 5)).
Proof.
  split; [|split].
  - apply (login_outcomes (VStr " alice ") (VStr "secret")
             (Auth (VBool false) alice)).
    reflexivity.
  - apply (login_outcomes (VStr "alice") (VStr "   ")
             (Auth (VBool false) alice)).
    reflexivity.
  - apply (login_outcomes (VStr "alice") (VStr "secret")
             (Auth (VBool false) (VNum 5))).
    reflexivity.
Defined.

Lemma createAccount_outcomes_witness :
  createAccount VUndefined VUndefined (Auth (VBool false) VNull)
    = (Returns (failure "Username required"), Auth (VBool false) VNull) ∧
  createAccount (VStr "bob") (VStr "  ") (Auth (VBool false) VNull)
    = (Returns (failure "Password required"), Auth (VBool false) VNull) ∧
  createAccount (VStr "alice") (VStr "other") (Auth (VBool false) alice)
    = (Returns (failure "Account already exists"), Auth (VBool false) alice) ∧
  createAccount (VStr "bob") (VStr "hunter2") (Auth (VBool false) VNull)
    = (Returns created, Auth (VBool true) (account "bob" "hunter2")).
Proof.
  split; [|split; [|split]].
  - apply (createAccount_outcomes VUndefined VUndefined
             (Auth (VBool false) VNull)).
    reflexivity.
  - apply (createAccount_outcomes (VStr "bob") (VStr "  ")
             (Auth (VBool false) VNull)); [discriminate|reflexivity].
  - apply (createAccount_outcomes (VStr "alice") (VStr "other")
             (Auth (VBool false) alice));
      [discriminate|discriminate|reflexivity].
  - apply (createAccount_outcomes (VStr "bob") (VStr "hunter2")
             (Auth (VBool false) VNull));
      [discriminate|discriminate|reflexivity].
Defined.

Lemma createAccount_logout_login_witness :
  isAuthed (createAccount (VStr "bob") (VStr "hunter2")
              (Auth (VBool false) VNull)).2 = VBool true ∧
  isAuthed (logout (createAccount (VStr "bob") (VStr "hunter2")
                      (Auth (VBool false) VNull)).2).2 = VBool false ∧
  storedAccount (logout (createAccount (VStr "bob") (VStr "hunter2")
                           (Auth (VBool false) VNull)).2).2
    = storedAccount (createAccount (VStr "bob") (VStr "hunter2")
                       (Auth (VBool false) VNull)).2 ∧
  login (VStr "bob") (VStr "hunter2")
      (logout (createAccount (VStr "bob") (VStr "hunter2")
                 (Auth (VBool false) VNull)).2).2
    = (Returns logged_in,
       (createAccount (VStr "bob") (VStr "hunter2")
          (Auth (VBool false) VNull)).2).
Proof.
  apply (createAccount_logout_login (VStr "bob") (VStr "hunter2")
           (Auth (VBool false) VNull)).
  reflexivity.
Defined.

Lemma getPosts_seeds_witness :
  ∃ d1 d2 d3,
    getPosts fresh_world =
      (Returns [VObj d1; VObj d2; VObj d3],
       World (<["posts" := JSON_stringify_text (VArr [VObj d1; VObj d2; VObj d3])]>
                (storage fresh_world))
             (S (S (S (issued fresh_world)))) (clock fresh_world)) ∧
    get_field d1 "id" = VStr (randomUUID (issued fresh_world)) ∧
    get_field d2 "id" = VStr (randomUUID (S (issued fresh_world))) ∧
    get_field d3 "id" = VStr (randomUUID (S (S (issued fresh_world)))) ∧
    getTime d1 = clock fresh_world ∧
    getTime d2 = clock fresh_world - 86400000 ∧
    getTime d3 = clock fresh_world - 172800000 ∧
    record_shaped d1 = true ∧ record_shaped d2 = true ∧
    record_shaped d3 = true.
Proof.
  apply (getPosts_seeds fresh_world). intros x xs. by vm_compute.
Defined.

Lemma getPosts_null_entry_witness :
  getPosts holed_world =
    seed_defaults (World (storage holed_world)
                     (issued holed_world + missing_ids [[("title", VStr "A")]])
                     (clock holed_world)) ∧
  ∃ d1 d2 d3,
    (getPosts holed_world).1 = Returns [VObj d1; VObj d2; VObj d3] ∧
    storage (getPosts holed_world).2 !! "posts"
      = Some (JSON_stringify_text (VArr [VObj d1; VObj d2; VObj d3])).
Proof.
  apply (getPosts_null_entry holed_world [[("title", VStr "A")]] [VObj cats]).
  by vm_compute.
Defined.

Lemma savePosts_then_getPosts_witness :
  getPosts (savePosts (VArr (VObj <$> kept_posts)) fresh_world).2 =
    (Returns (VObj <$> kept_posts),
     (savePosts (VArr (VObj <$> kept_posts)) fresh_world).2).
Proof.
  apply (savePosts_then_getPosts fresh_world kept_posts kept_text);
    [discriminate | by repeat constructor | by vm_compute
     | by vm_compute | by vm_compute].
Defined.

Lemma savePosts_empty_then_getPosts_witness :
  storage (savePosts (VArr []) legacy_world).2 !! "posts" = None ∧
  getPosts (savePosts (VArr []) legacy_world).2
    = seed_defaults (savePosts (VArr []) legacy_world).2 ∧
  ∃ d1 d2 d3,
    (getPosts (savePosts (VArr []) legacy_world).2).1
      = Returns [VObj d1; VObj d2; VObj d3].
Proof.
  apply (savePosts_empty_then_getPosts legacy_world).
  intros x xs. by vm_compute.
Defined.

Example filtered_ids : filtered id_heap [0; 1; 2]%nat "" ["pets"] "oldest"
                         = Returns [0; 2; 1]%nat.
Proof. by vm_compute. Qed.

Lemma filtered_after_deletePost_witness :
  filtered id_heap (deletePost id_heap "p0" [0; 1; 2]%nat) "" ["pets"] "oldest"
    = Returns (deletePost id_heap "p0" [0; 2; 1]%nat) ∧
  sublist (deletePost id_heap "p0" [0; 2; 1]%nat) [0; 2; 1]%nat ∧
  (∀ l, l ∈ deletePost id_heap "p0" [0; 2; 1]%nat ↔
        l ∈ [0; 2; 1]%nat ∧ get_field (id_heap l) "id" ≠ VStr "p0").
Proof.
  apply (filtered_after_deletePost id_heap [0; 1; 2]%nat [0; 2; 1]%nat ""
           ["pets"] "oldest" "p0").
  by vm_compute.
Defined.

Lemma onToggleTag_flips_witness :
  ("fun" ∈ onToggleTag "fun" ["pets"] ↔ "fun" ∉ ["pets"]) ∧
  ("pets" ∈ onToggleTag "fun" ["pets"] ↔ "pets" ∈ ["pets"]) ∧
  NoDup (onToggleTag "fun" ["pets"]).
Proof.
  destruct (onToggleTag_flips "fun" ["pets"]) as (Hflip & Hother & Hnodup).
  split; [done|]. split.
  - apply Hother. discriminate.
  - apply Hnodup. compute_done.
Defined.

Lemma filtered_toggle_twice_witness :
  filtered id_heap [0; 1; 2]%nat ""
      (onToggleTag "pets" (onToggleTag "pets" ["pets"; "fun"])) "newest"
    = filtered id_heap [0; 1; 2]%nat "" ["pets"; "fun"] "newest" ∧
  onToggleTag "wild" (onToggleTag "wild" ["pets"; "fun"]) = ["pets"; "fun"].
Proof.
  split.
  - apply (filtered_toggle_twice id_heap [0; 1; 2]%nat "" ["pets"; "fun"]
             "newest" "pets").
  - apply (filtered_toggle_twice id_heap [0; 1; 2]%nat "" ["pets"; "fun"]
             "newest" "wild").
    compute_done.
Defined.

Lemma filtered_selection_as_set_witness :
  filtered id_heap [0; 1; 2]%nat "" ["pets"; "fun"] "newest"
    = filtered id_heap [0; 1; 2]%nat "" ["fun"; "pets"; "fun"] "newest".
Proof.
  apply (filtered_selection_as_set id_heap [0; 1; 2]%nat ""
           ["pets"; "fun"] ["fun"; "pets"; "fun"] "newest").
  intros x. rewrite !elem_of_cons, !elem_of_nil. tauto.
Defined.

Example allTags_ids :
  allTags id_heap [0; 1; 2]%nat = [VStr "pets"; VStr "fun"; VStr "wild"].
Proof. reflexivity. Qed.

Lemma allTags_tag_finds_post_witness :
  ∃ out, filtered id_heap [0; 1; 2]%nat "  " ["wild"] "newest" = Returns out
         ∧ out ≠ [].
Proof.
  apply (allTags_tag_finds_post id_heap [0; 1; 2]%nat "  " "newest" "wild");
    [reflexivity|].
  apply list_elem_of_In. vm_compute. tauto.
Defined.


Example submit_draft :
  (BlogPostForm.submit draft legacy_world).1 =
    Returns (Some (VObj [("id", VStr "uuid-7"); ("title", VStr "Hello");
                         ("body", VStr "A first text.");
                         ("tags", VArr [VStr "pets"; VStr "fun"; VStr "wild"]);
                         ("image", VStr ""); ("createdAt", VNum 0)]),
             BlogPostForm.Form "" "" "" "").
Proof. by vm_compute. Qed.

Lemma submit_post_witness :
  BlogPostForm.submit (BlogPostForm.Form "   " "text" "a,b" "") fresh_world
    = (Returns (None, BlogPostForm.Form "   " "text" "a,b" ""), fresh_world) ∧
  ∃ p, BlogPostForm.submit draft fresh_world =
         (Returns (Some (VObj p), BlogPostForm.Form "" "" "" ""),
          World (storage fresh_world) (S (issued fresh_world))
                (clock fresh_world)) ∧
    record_shaped p = true ∧
    get_field p "id" = VStr (randomUUID (issued fresh_world)) ∧
    getTime p = clock fresh_world ∧
    get_field p "title" = VStr (trim (BlogPostForm.title draft)) ∧
    get_field p "body" = VStr (trim (BlogPostForm.body draft)) ∧
    tags_of p = VStr <$> BlogPostForm.tag_list (BlogPostForm.tags draft) ∧
    Forall (λ t, t ≠ "" ∧ trim t = t)
      (BlogPostForm.tag_list (BlogPostForm.tags draft)).
Proof.
  split.
  - apply (submit_post (BlogPostForm.Form "   " "text" "a,b" "") fresh_world).
    reflexivity.
  - apply (submit_post draft fresh_world). discriminate.
Defined.

Lemma App_tab_restored_witness :
  App.mount (App.setActive "Blog" fresh_world).2
    = (Returns "Blog", (App.setActive "Blog" fresh_world).2) ∧
  App.mount fresh_world =
    (Returns "Education",
     World (<["activeTab" := "Education"]> (storage fresh_world))
           (issued fresh_world) (clock fresh_world)).
Proof.
  split.
  - apply (App_tab_restored "Blog" fresh_world). discriminate.
  - apply (App_tab_restored "Blog" fresh_world). left. reflexivity.
Defined.

Lemma AuthProvider_reload_witness :
  AuthProvider_mount (AuthProvider_effects (Auth (VBool true) alice) fresh_world).2
    = (Returns (Auth (VBool true) alice),
       (AuthProvider_effects (Auth (VBool true) alice) fresh_world).2).
Proof.
  apply (AuthProvider_reload (Auth (VBool true) alice) fresh_world "true"
           (default "" (Reference.stringify alice)));
    [reflexivity | discriminate | reflexivity
     | by vm_compute | by vm_compute | by vm_compute].
Defined.

Lemma Blog_mount_settles_witness :
  storage (Blog_mount legacy_world).2 !! "posts"
    = Some (default "" (Reference.stringify
                          (VArr (VObj <$> normalized 7 legacy_posts)))) ∧
  Blog_mount (Blog_mount legacy_world).2
    = (Returns (VObj <$> normalized 7 legacy_posts), (Blog_mount legacy_world).2).
Proof.
  apply (Blog_mount_settles legacy_world (Blog_mount legacy_world).2
           (VObj <$> normalized 7 legacy_posts)
           (default "" (Reference.stringify
                          (VArr (VObj <$> normalized 7 legacy_posts)))));
    by vm_compute.
Defined.

Lemma onSubmit_outcome_witness :
  ∃ m' st',
    AuthModal.onSubmit (AuthModal.Modal "create" "bob" "hunter2" "hunter3"
                          (VStr "") false) (Auth (VBool false) alice)
      = (Returns m', st') ∧
    AuthModal.mode m' = "create" ∧ AuthModal.un m' = "bob" ∧
    AuthModal.pw m' = "hunter2" ∧ AuthModal.pw2 m' = "hunter3" ∧
    (false = false → AuthModal.busy m' = false) ∧
    ((AuthModal.err m' = VStr "" ∧ isAuthed st' = VBool true)
     ∨ (∃ msg, AuthModal.err m' = VStr msg ∧ msg ≠ ""
               ∧ st' = Auth (VBool false) alice)).
Proof.
  apply (onSubmit_outcome
           (AuthModal.Modal "create" "bob" "hunter2" "hunter3" (VStr "") false)
           (Auth (VBool false) alice)).
Defined.

Example onSubmit_mismatch :
  AuthModal.onSubmit (AuthModal.Modal "create" "bob" "hunter2" "hunter3"
                        (VStr "") false) (Auth (VBool false) alice)
    = (Returns (AuthModal.Modal "create" "bob" "hunter2" "hunter3"
                  (VStr "Passwords do not match") false),
       Auth (VBool false) alice).
Proof. reflexivity. Qed.

Example onSubmit_login :
  AuthModal.onSubmit (AuthModal.Modal "login" "alice" "secret" ""
                        (VStr "old") false) (Auth (VBool false) alice)
    = (Returns (AuthModal.Modal "login" "alice" "secret" "" (VStr "") false),
       Auth (VBool true) alice).
Proof. reflexivity. Qed.

Lemma getPosts_always_posts_witness :
  ∃ out w', getPosts holed_world = (Returns out, w') ∧
    out ≠ [] ∧ Forall has_id out ∧
    (∀ k, k ≠ "posts" → storage w' !! k = storage holed_world !! k).
Proof. apply (getPosts_always_posts holed_world). Defined.

End MoreOnReference.
